(** * nicegraf C++ wrappers (include/nicegraf_wrappers.h)

    A shallow embedding of the move-only handle wrapper [ngf_handle], the
    bind-op encoder [descriptor_set], the [cmd_bind_resources] facade and the
    [streamed_uniform] ring allocator, with the properties the specification
    states about them.

    Conventions
    - raw object pointers are integers, [nullptr] is 0;
    - [uint32_t] and [size_t] values are integers with the wrap-around of the
      C++ unsigned arithmetic written out ([size_t] is taken 64 bits wide);
    - every call that leaves the wrappers (a backend entry point, or [memcpy]
      into mapped memory) is recorded, in program order, in a list of
      [backend_call]s; what the backend answers is an input of the model;
    - behaviour the C++ standard leaves undefined is the outcome [Undefined]. *)

From Stdlib Require Import ZArith Lia List.
From stdpp Require Import base decidable option list gmap.

Open Scope Z_scope.

(** ** Machine integers and pointers *)

Abbreviation ptr := Z.

Definition nullptr : ptr := 0.

Definition UINT32_MAX : Z := 2 ^ 32 - 1.
Definition SIZE_MAX : Z := 2 ^ 64 - 1.

Definition wrap_u32 (x : Z) : Z := x mod 2 ^ 32.
Definition wrap_size (x : Z) : Z := x mod 2 ^ 64.

Definition size_add (a b : Z) : Z := wrap_size (a + b).
Definition size_sub (a b : Z) : Z := wrap_size (a - b).
Definition size_mul (a b : Z) : Z := wrap_size (a * b).
Definition size_rem (a b : Z) : Z := a mod b.
Definition u32_add (a b : Z) : Z := wrap_u32 (a + b).

(** A C++ call either returns to its caller or has undefined behaviour. *)
Inductive outcome (A : Type) : Type :=
| Returns (a : A)
| Undefined.
Arguments Returns {A} a.
Arguments Undefined {A}.

(** ** Declarations of nicegraf.h used by the wrappers

    The header is not among the sources: the values of its constants are
    parameters of the development. *)
Class nicegraf_h : Type := {
  NGF_BUFFER_MAP_WRITE_BIT : Z;
  NGF_BUFFER_MAP_DISCARD_BIT : Z;
  NGF_BUFFER_STORAGE_HOST_READABLE_WRITEABLE : Z
}.

(** Modelled from the spec: the [ngf_error] enumeration of nicegraf.h, a typed
    error code of which only [NGF_ERROR_OK] means success. *)
Inductive ngf_error : Type :=
| NGF_ERROR_OK
| NGF_ERROR_CODE (code : positive).

(** The descriptor kinds the encoder produces. *)
Inductive ngf_descriptor_type : Type :=
| NGF_DESCRIPTOR_TEXTURE
| NGF_DESCRIPTOR_UNIFORM_BUFFER
| NGF_DESCRIPTOR_SAMPLER
| NGF_DESCRIPTOR_TEXTURE_AND_SAMPLER.

(** The [info] union of a bind op.  A member the encoder does not assign is
    indeterminate: [None]. *)
Inductive ngf_resource_bind_info : Type :=
| uniform_buffer_info (buffer : ptr) (offset range : Z)
| image_sampler_info (image sampler : option ptr).

Record ngf_resource_bind_op : Type := {
  op_type : ngf_descriptor_type;
  target_binding : Z;
  target_set : Z;
  info : ngf_resource_bind_info
}.

(** The object kinds NGF_DEFINE_WRAPPER_TYPE is instantiated at. *)
Inductive wrapper_type : Type :=
| shader_stage | graphics_pipeline | image | sampler | render_target
| attrib_buffer | index_buffer | uniform_buffer | pixel_buffer
| context | cmd_buffer.

(** Calls that leave the wrappers. [ngf_create name] and [ngf_destroy name]
    are [ngf_create_##name] and [ngf_destroy_##name]. *)
Inductive backend_call : Type :=
| ngf_create (name : wrapper_type)
| ngf_destroy (name : wrapper_type) (handle : ptr)
| ngf_create_uniform_buffer2 (size storage_type : Z)
| ngf_uniform_buffer_map_range (buf : ptr) (offset size flags : Z)
| memcpy (dst : ptr) (src : list Byte.byte) (n : Z)
| ngf_uniform_buffer_flush_range (buf : ptr) (offset size : Z)
| ngf_uniform_buffer_unmap (buf : ptr)
| ngf_cmd_bind_resources (buf : ptr) (ops : list ngf_resource_bind_op) (nbind_ops : Z).

(** What a backend create function answers: its return value, and the object
    it stored through its out-parameter, if it stored one. *)
Record create_reply : Type := {
  status : ngf_error;
  written : option ptr
}.

(** ** ngf_handle: methods on one handle object

    A method is a function of the [handle_] member: it yields its return
    value, the new [handle_] and the calls it made. *)
Module ngf_handle.

Definition method (A : Type) : Type := ptr -> A * ptr * list backend_call.

Section methods.
Variable name : wrapper_type.

Definition destroy_if_necessary : method unit := fun handle_ =>
  if decide (handle_ <> nullptr)
  then (tt, nullptr, [ngf_destroy name handle_])
  else (tt, handle_, []).

Definition get : method ptr := fun handle_ => (handle_, handle_, []).

Definition release : method ptr := fun handle_ =>
  let tmp := handle_ in (tmp, nullptr, []).

Definition reset (new_handle : ptr) : method unit := fun handle_ =>
  let '(_, _, cs) := destroy_if_necessary handle_ in
  (tt, new_handle, cs).

(** [ObjectManagementFuncs::create(&info, &handle_)]: the info structure is
    opaque to the wrapper and handed on as it is. *)
Definition initialize (reply : create_reply) : method ngf_error := fun handle_ =>
  let '(_, handle_, cs) := destroy_if_necessary handle_ in
  (status reply, default handle_ (written reply), cs ++ [ngf_create name]).

(** The destructor. *)
Definition dtor : method unit := destroy_if_necessary.

(** A plain store to the member: [handle_ = value]. *)
Definition assign (value : ptr) : method unit := fun _ => (tt, value, []).
End methods.

End ngf_handle.

(** ** descriptor_set<S>::binding<B> *)
Module descriptor_set.
Section binding.
Variables S B : Z.

Definition texture (image : ptr) : ngf_resource_bind_op :=
    {| op_type := NGF_DESCRIPTOR_TEXTURE; target_binding := B; target_set := S;
       info := image_sampler_info (Some image) None |}.

Definition uniform_buffer (buf : ptr) (offset range : Z) : ngf_resource_bind_op :=
    {| op_type := NGF_DESCRIPTOR_UNIFORM_BUFFER; target_binding := B; target_set := S;
       info := uniform_buffer_info buf offset range |}.

Definition sampler (sampler : ptr) : ngf_resource_bind_op :=
    {| op_type := NGF_DESCRIPTOR_SAMPLER; target_binding := B; target_set := S;
       info := image_sampler_info None (Some sampler) |}.

Definition texture_and_sampler (image sampler : ptr) : ngf_resource_bind_op :=
    {| op_type := NGF_DESCRIPTOR_TEXTURE_AND_SAMPLER; target_binding := B; target_set := S;
       info := image_sampler_info (Some image) (Some sampler) |}.
End binding.
End descriptor_set.

(** ** cmd_bind_resources

    An instantiation of a function template is either a function that can be
    called or ill-formed, in which case the program that calls it is rejected
    by the compiler. *)
Inductive instantiation (A : Type) : Type :=
| Callable (a : A)
| IllFormed.
Arguments Callable {A} a.
Arguments IllFormed {A}.

(** The array [ops] is initialised from the argument pack, the count is its
    length ([sizeof(ops)/sizeof(ngf_resource_bind_op)]).  For an empty pack
    the declaration reads [const ngf_resource_bind_op ops[] = { }]: an array
    of unknown bound with no initialiser element, that is an array of zero
    elements, which C++ does not allow. *)
Definition cmd_bind_resources (buf : ptr) (args : list ngf_resource_bind_op)
  : instantiation (list backend_call * outcome unit) :=
  match args with
  | [] => IllFormed
  | _ :: _ =>
      let ops := args in
      Callable ([ngf_cmd_bind_resources buf ops (Z.of_nat (length ops))], Returns tt)
  end.

(** ** streamed_uniform<T> *)
Module streamed_uniform.

Record t : Type := {
  buf_ : ptr;             (* the handle_ member of the uniform_buffer handle *)
  frame_ : Z;             (* uint32_t *)
  current_offset_ : Z;    (* size_t *)
  nframes_ : Z;           (* const uint32_t *)
  aligned_size_ : Z       (* const size_t *)
}.

(** A ring in use: the frame index is a slot of the ring. *)
Definition ring_ok (s : t) : Prop :=
  1 <= nframes_ s <= UINT32_MAX /\ 0 <= frame_ s < nframes_ s.

Section payload.
Context `{nicegraf_h}.
  (** [sizeof(T)] of the payload type. *)
Variable sizeof_T : Z.

Definition aligned_size : Z :=
    size_add sizeof_T (size_sub 256 (size_rem sizeof_T 256)).

Definition construct (nframes : Z) (reply : create_reply) : list backend_call * t :=
    let buffer_info_size := size_mul aligned_size nframes in
    let buf := default nullptr (written reply) in
    let '(_, handle_, cs) := ngf_handle.reset uniform_buffer buf nullptr in
    (ngf_create_uniform_buffer2 buffer_info_size NGF_BUFFER_STORAGE_HOST_READABLE_WRITEABLE :: cs,
     {| buf_ := handle_; frame_ := 0; current_offset_ := 0;
        nframes_ := nframes; aligned_size_ := aligned_size |}).

Definition map_flags (current_offset : Z) : Z :=
    if decide (current_offset = 0)
    then Z.lor NGF_BUFFER_MAP_WRITE_BIT NGF_BUFFER_MAP_DISCARD_BIT
    else NGF_BUFFER_MAP_WRITE_BIT.

  (** [write]: [mapped_buf] is the pointer the backend's map returns.
      Copying through a null pointer and a remainder by zero are undefined. *)
Definition write (mapped_buf : ptr) (data : list Byte.byte) (s : t)
    : list backend_call * outcome t :=
    let current_offset := size_mul (frame_ s) (aligned_size_ s) in
    let flags := map_flags current_offset in
    let map_call :=
      ngf_uniform_buffer_map_range (buf_ s) current_offset (aligned_size_ s) flags in
    if decide (mapped_buf = nullptr) then ([map_call], Undefined) else
    let cs := [map_call;
               memcpy mapped_buf data sizeof_T;
               ngf_uniform_buffer_flush_range (buf_ s) current_offset (aligned_size_ s);
               ngf_uniform_buffer_unmap (buf_ s)] in
    if decide (nframes_ s = 0) then (cs, Undefined) else
    (cs, Returns {| buf_ := buf_ s;
                    frame_ := u32_add (frame_ s) 1 mod nframes_ s;
                    current_offset_ := current_offset;
                    nframes_ := nframes_ s;
                    aligned_size_ := aligned_size_ s |}).

Definition bind_op_at_current_offset (set binding : Z) (s : t)
    : ngf_resource_bind_op * t :=
    ({| op_type := NGF_DESCRIPTOR_UNIFORM_BUFFER;
        target_binding := binding;
        target_set := set;
        info := uniform_buffer_info (buf_ s) (current_offset_ s) (aligned_size_ s) |},
     s).

  (** A client calling [write] once per element of [inputs] (the pointer the
    backend maps, and the payload). *)
Fixpoint writes (inputs : list (ptr * list Byte.byte)) (s : t)
  : list backend_call * outcome t :=
  match inputs with
  | [] => ([], Returns s)
  | (mapped_buf, data) :: rest =>
      match write mapped_buf data s with
      | (cs, Returns s') => let '(cs', o) := writes rest s' in (cs ++ cs', o)
      | (cs, Undefined) => (cs, Undefined)
      end
  end.
End payload.

End streamed_uniform.

(** ** Client programs over several handles

    Handle objects are named by numbers; [live] maps the handles in scope to
    their [handle_] member.  A program is a list of operations on them. *)
Module ownership.

Record world : Type := {
  live : gmap nat Z;            (* handle objects in scope *)
  calls : list backend_call;    (* calls made so far *)
  next_object : Z;              (* backend: the next object it creates *)
  raw_owned : gset Z            (* client: raw objects it holds outside any handle *)
}.

Definition M (A : Type) : Type := world -> option (A * world).

#[export] Instance M_ret : MRet M := fun A a w => Some (a, w).

#[export] Instance M_bind : MBind M := fun A B k m w =>
  match m w with
  | Some (a, w') => k a w'
  | None => None
  end.

(** Calling method [m] on the handle object [this]; no result when [this]
    is not in scope. *)
Definition invoke {A} (this : nat) (m : ngf_handle.method A) : M A := fun w =>
  match live w !! this with
  | Some handle_ =>
      let '(a, handle_', cs) := m handle_ in
      Some (a, {| live := <[this := handle_']> (live w);
                  calls := calls w ++ cs;
                  next_object := next_object w;
                  raw_owned := raw_owned w |})
  | None => None
  end.

(** A handle object comes into scope, and leaves it. *)
Definition alloc (this : nat) (handle_ : ptr) : M unit := fun w =>
  match live w !! this with
  | Some _ => None
  | None => Some (tt, {| live := <[this := handle_]> (live w); calls := calls w;
                         next_object := next_object w; raw_owned := raw_owned w |})
  end.

Definition dealloc (this : nat) : M unit := fun w =>
  match live w !! this with
  | Some _ => Some (tt, {| live := delete this (live w); calls := calls w;
                           next_object := next_object w; raw_owned := raw_owned w |})
  | None => None
  end.

(** Client bookkeeping of the raw pointers it holds. *)
Definition take_raw (p : ptr) : M unit := fun w =>
  Some (tt, {| live := live w; calls := calls w; next_object := next_object w;
               raw_owned := if decide (p = nullptr) then raw_owned w
                            else {[p]} ∪ raw_owned w |}).

Definition give_raw (p : ptr) : M unit := fun w =>
  Some (tt, {| live := live w; calls := calls w; next_object := next_object w;
               raw_owned := raw_owned w ∖ {[p]} |}).

(** Modelled from the spec: the backend's [create_<resource>(config) ->
    (object | error)], whose implementations are not among the sources.  A
    successful create stores a new object; a failed one stores nothing. *)
Definition backend_create (st : ngf_error) : M create_reply := fun w =>
  match st with
  | NGF_ERROR_OK =>
      Some ({| status := NGF_ERROR_OK; written := Some (next_object w) |},
            {| live := live w; calls := calls w; next_object := next_object w + 1;
               raw_owned := raw_owned w |})
  | _ => Some ({| status := st; written := None |}, w)
  end.

Definition emit (c : backend_call) : M unit := fun w =>
  Some (tt, {| live := live w; calls := calls w ++ [c]; next_object := next_object w;
               raw_owned := raw_owned w |}).

Section programs.
Variable name : wrapper_type.

(** [operator=(ngf_handle&& other)] on the objects [this] and [other]. *)
Definition move_assign (this other : nat) : M unit :=
  _ ← invoke this (ngf_handle.destroy_if_necessary name);
  h ← invoke other ngf_handle.get;
  _ ← invoke this (ngf_handle.assign h);
  invoke other (ngf_handle.assign nullptr).

(** [ngf_handle(ngf_handle&& other)]: [other] is an object already in scope,
    [this] the one being constructed. *)
Definition move_construct (this other : nat) : M unit :=
  _ ← invoke other ngf_handle.get;
  _ ← alloc this nullptr;
  move_assign this other.

Inductive op : Type :=
| DefaultCtor (this : nat)
| RawCtor (this : nat) (raw : ptr)
| MoveCtor (this other : nat)
| Dtor (this : nat)
| MoveAssign (this other : nat)
| Initialize (this : nat) (st : ngf_error)
| Release (this : nat)
| Reset (this : nat) (new_handle : ptr)
| RawCreate (st : ngf_error).

Definition step (o : op) : M unit :=
  match o with
  | DefaultCtor this => alloc this nullptr
  | RawCtor this raw => _ ← alloc this raw; give_raw raw
  | MoveCtor this other => move_construct this other
  | Dtor this => _ ← invoke this (ngf_handle.dtor name); dealloc this
  | MoveAssign this other => move_assign this other
  | Initialize this st =>
      reply ← backend_create st;
      _ ← invoke this (ngf_handle.initialize name reply);
      mret tt
  | Release this => p ← invoke this ngf_handle.release; take_raw p
  | Reset this new_handle =>
      _ ← invoke this (ngf_handle.reset name new_handle); give_raw new_handle
  | RawCreate st =>
      reply ← backend_create st;
      _ ← emit (ngf_create name);
      take_raw (default nullptr (written reply))
  end.

Fixpoint run (ops : list op) (w : world) : option world :=
  match ops with
  | [] => Some w
  | o :: rest =>
      match step o w with
      | Some (_, w') => run rest w'
      | None => None
      end
  end.

(** The caller's side of raw-pointer ownership: a handle is only given a raw
    pointer that is null or that the client holds outside every handle. *)
Definition contract (o : op) (w : world) : bool :=
  match o with
  | RawCtor _ raw | Reset _ raw => bool_decide (raw = nullptr ∨ raw ∈ raw_owned w)
  | _ => true
  end.

Fixpoint follows_contract (ops : list op) (w : world) : bool :=
  match ops with
  | [] => true
  | o :: rest =>
      contract o w &&
      match step o w with
      | Some (_, w') => follows_contract rest w'
      | None => true
      end
  end.
End programs.

Definition is_destroy (p : ptr) (c : backend_call) : bool :=
  match c with
  | ngf_destroy _ h => bool_decide (h = p)
  | _ => false
  end.

Fixpoint destroy_count (p : ptr) (cs : list backend_call) : nat :=
  match cs with
  | [] => O
  | c :: cs => ((if is_destroy p c then 1 else 0) + destroy_count p cs)%nat
  end.

Definition start : world :=
  {| live := ∅; calls := []; next_object := 1; raw_owned := ∅ |}.

(** Object [p] was created by the backend. *)
Definition created (p : ptr) (w : world) : Prop := 0 < p < next_object w.

(** Some handle in scope holds [p]. *)
Definition held (p : ptr) (w : world) : Prop := exists this, live w !! this = Some p.

(** The ownership discipline of a client that follows [contract]:
    every object created is in exactly one place. *)
Record inv (w : world) : Prop := {
  inv_next : 0 < next_object w;
  inv_held : forall h p, live w !! h = Some p -> p <> nullptr ->
    created p w /\ (p ∉ raw_owned w) /\ destroy_count p (calls w) = O;
  inv_unique : forall h1 h2 p, live w !! h1 = Some p -> live w !! h2 = Some p ->
    p <> nullptr -> h1 = h2;
  inv_raw : forall p, p ∈ raw_owned w -> created p w /\ destroy_count p (calls w) = O;
  inv_destroyed : forall p, (destroy_count p (calls w) <= 1)%nat /\
    (destroy_count p (calls w) <> O -> created p w);
  inv_cover : forall p, created p w ->
    held p w \/ p ∈ raw_owned w \/ destroy_count p (calls w) = 1%nat
}.

(** A method, and a computation, that makes no destroy call on the null
    object. *)
Definition method_clean {A} (m : ngf_handle.method A) : Prop :=
  forall p, destroy_count nullptr (snd (m p)) = O.

Definition keeps_clean {A} (m : M A) : Prop :=
  forall w a w', m w = Some (a, w') ->
    destroy_count nullptr (calls w) = O -> destroy_count nullptr (calls w') = O.

(** A client program that moves, releases and re-adopts objects. *)
Definition sample_program : list op :=
  [DefaultCtor 0; Initialize 0 NGF_ERROR_OK; DefaultCtor 1; MoveAssign 1 0;
   Release 1; Reset 0 1; Initialize 1 NGF_ERROR_OK; MoveCtor 2 1;
   Dtor 0; Dtor 1; Dtor 2].

Ltac unfold_monad :=
  unfold mbind, M_bind, mret, M_ret, invoke, alloc, dealloc, take_raw, give_raw,
    backend_create, emit; cbn [live calls next_object raw_owned].

End ownership.

(** The byte range a map or flush call names lies inside a buffer of
    [buffer_size] bytes. *)
Definition range_within (buffer_size : Z) (c : backend_call) : Prop :=
  match c with
  | ngf_uniform_buffer_map_range _ offset size _
  | ngf_uniform_buffer_flush_range _ offset size =>
      0 <= offset /\ offset + size <= buffer_size
  | _ => True
  end.

Definition is_map_range (c : backend_call) : bool :=
  match c with
  | ngf_uniform_buffer_map_range _ _ _ _ => true
  | _ => false
  end.

(** The specification's slot size: [ceil(s / alignment) * alignment]. *)
Definition ceil_div (s alignment : Z) : Z := (s + alignment - 1) / alignment.
Definition spec_slot_size (s alignment : Z) : Z := ceil_div s alignment * alignment.

(** Header values and a 68-byte payload, used to evaluate the definitions on
    concrete inputs. *)
Definition sample_header : nicegraf_h :=
  {| NGF_BUFFER_MAP_WRITE_BIT := 2;
     NGF_BUFFER_MAP_DISCARD_BIT := 4;
     NGF_BUFFER_STORAGE_HOST_READABLE_WRITEABLE := 1 |}.

Definition sample_payload : list Byte.byte := repeat Byte.x00 68.

(** ** Reading recorded calls *)

(** The map requests among recorded calls, in order: buffer, offset, size and
    flags of each. *)
Fixpoint map_requests (cs : list backend_call) : list (Z * Z * Z * Z) :=
  match cs with
  | [] => []
  | ngf_uniform_buffer_map_range buf offset size flags :: cs =>
      (buf, offset, size, flags) :: map_requests cs
  | _ :: cs => map_requests cs
  end.

(** The mapping protocol of a buffer, checked along recorded calls.
    [replies] are the pointers the backend's map returns, one per map request
    in order; [mapped] is the range currently mapped and the pointer it is
    mapped at, if any.  A range is mapped only when none is; bytes are copied
    only to the pointer of the mapped range and no more of them than the range
    has; a flush names exactly the mapped range; unmap names the mapped
    buffer; at the end nothing is left mapped and every reply was used. *)
Fixpoint follows_map_protocol (replies : list Z) (mapped : option (Z * Z * Z * Z))
    (cs : list backend_call) : bool :=
  match cs with
  | [] => bool_decide (mapped = None /\ replies = [])
  | c :: cs =>
      match c, mapped with
      | ngf_uniform_buffer_map_range buf offset size _, None =>
          match replies with
          | mapped_buf :: replies =>
              follows_map_protocol replies (Some (buf, offset, size, mapped_buf)) cs
          | [] => false
          end
      | memcpy dst _ n, Some (_, _, size, mapped_buf) =>
          bool_decide (dst = mapped_buf /\ 0 <= n <= size) &&
          follows_map_protocol replies mapped cs
      | ngf_uniform_buffer_flush_range buf offset size, Some (buf', offset', size', _) =>
          bool_decide ((buf', offset', size') = (buf, offset, size)) &&
          follows_map_protocol replies mapped cs
      | ngf_uniform_buffer_unmap buf, Some (buf', _, _, _) =>
          bool_decide (buf = buf') && follows_map_protocol replies None cs
      | ngf_create _, _ | ngf_destroy _ _, _ | ngf_create_uniform_buffer2 _ _, _
      | ngf_cmd_bind_resources _ _ _, _ => follows_map_protocol replies mapped cs
      | _, _ => false
      end
  end.

(** * Properties *)

(** ** Machine arithmetic *)

Lemma wrap_size_range (x : Z) : 0 <= wrap_size x < 2 ^ 64.
Proof. unfold wrap_size. apply Z.mod_pos_bound. lia. Qed.

Lemma wrap_size_small (x : Z) : 0 <= x <= SIZE_MAX -> wrap_size x = x.
Proof. unfold wrap_size, SIZE_MAX. intros Hx. apply Z.mod_small. lia. Qed.

Lemma wrap_u32_small (x : Z) : 0 <= x <= UINT32_MAX -> wrap_u32 x = x.
Proof. unfold wrap_u32, UINT32_MAX. intros Hx. apply Z.mod_small. lia. Qed.

Lemma size_mul_small (a b : Z) : 0 <= a * b <= SIZE_MAX -> size_mul a b = a * b.
Proof. apply wrap_size_small. Qed.

Lemma land_lor_absorb (a b : Z) :
  Z.land (Z.lor a b) a = a /\ Z.land (Z.lor a b) b = b.
Proof.
  split; apply Z.bits_inj'; intros n _;
    rewrite Z.land_spec, Z.lor_spec;
    destruct (Z.testbit a n), (Z.testbit b n); reflexivity.
Qed.

(** ** streamed_uniform *)
Section streamed_uniform_facts.
Context `{nicegraf_h}.
Variable sizeof_T : Z.
Import streamed_uniform.

Lemma aligned_size_range : 0 <= aligned_size sizeof_T < 2 ^ 64.
Proof. apply wrap_size_range. Qed.

(** Without wrap-around the slot is the payload size plus the padding to the
    next multiple of 256 strictly above it. *)
Lemma aligned_size_unfold :
  0 <= sizeof_T -> sizeof_T + 256 <= SIZE_MAX ->
  aligned_size sizeof_T = sizeof_T + (256 - sizeof_T mod 256).
Proof.
  intros H0 H1. unfold aligned_size, size_add, size_sub, size_rem.
  pose proof (Z.mod_pos_bound sizeof_T 256 ltac:(lia)) as Hm.
  rewrite (wrap_size_small (256 - _)) by (unfold SIZE_MAX; lia).
  apply wrap_size_small. lia.
Qed.

Lemma aligned_size_floor :
  0 <= sizeof_T -> sizeof_T + 256 <= SIZE_MAX ->
  aligned_size sizeof_T = (sizeof_T / 256 + 1) * 256.
Proof.
  intros H0 H1. rewrite aligned_size_unfold by assumption.
  pose proof (Z.div_mod sizeof_T 256 ltac:(lia)). lia.
Qed.

(** The slot holds the payload and is a multiple of the alignment. *)
Lemma aligned_size_fits :
  0 <= sizeof_T -> sizeof_T + 256 <= SIZE_MAX ->
  sizeof_T < aligned_size sizeof_T /\ aligned_size sizeof_T mod 256 = 0.
Proof.
  intros H0 H1. rewrite aligned_size_floor by assumption. split.
  - pose proof (Z.div_mod sizeof_T 256 ltac:(lia)).
    pose proof (Z.mod_pos_bound sizeof_T 256 ltac:(lia)). lia.
  - apply Z.mod_mul. lia.
Qed.

(** Away from the exact multiples the slot is the specification's. *)
Lemma aligned_size_spec_off_multiples :
  0 <= sizeof_T -> sizeof_T + 256 <= SIZE_MAX -> sizeof_T mod 256 <> 0 ->
  aligned_size sizeof_T = spec_slot_size sizeof_T 256.
Proof.
  intros H0 H1 Hm. rewrite aligned_size_floor by assumption.
  unfold spec_slot_size, ceil_div. f_equal.
  pose proof (Z.div_mod sizeof_T 256 ltac:(lia)) as Hd.
  pose proof (Z.mod_pos_bound sizeof_T 256 ltac:(lia)) as Hb.
  apply (Z.div_unique _ _ _ (sizeof_T mod 256 - 1)); lia.
Qed.

(** On the exact multiples it is one alignment unit more. *)
Lemma aligned_size_on_multiples :
  0 <= sizeof_T -> sizeof_T + 256 <= SIZE_MAX -> sizeof_T mod 256 = 0 ->
  aligned_size sizeof_T = spec_slot_size sizeof_T 256 + 256.
Proof.
  intros H0 H1 Hm. rewrite aligned_size_floor by assumption.
  unfold spec_slot_size, ceil_div.
  pose proof (Z.div_mod sizeof_T 256 ltac:(lia)) as Hd.
  replace ((sizeof_T + 256 - 1) / 256) with (sizeof_T / 256); [lia|].
  apply (Z.div_unique _ _ _ 255); lia.
Qed.

Lemma construct_state (nframes : Z) (reply : create_reply) :
  construct sizeof_T nframes reply =
  ([ngf_create_uniform_buffer2 (size_mul (aligned_size sizeof_T) nframes)
      NGF_BUFFER_STORAGE_HOST_READABLE_WRITEABLE],
   {| buf_ := default nullptr (written reply); frame_ := 0; current_offset_ := 0;
      nframes_ := nframes; aligned_size_ := aligned_size sizeof_T |}).
Proof. reflexivity. Qed.

(** One [write] that is handed a mapped pointer, on a ring with slots. *)
Lemma write_returns (mapped_buf : Z) (data : list Byte.byte) (s : t) :
  mapped_buf <> nullptr -> nframes_ s <> 0 ->
  write sizeof_T mapped_buf data s =
  (let current_offset := size_mul (frame_ s) (aligned_size_ s) in
   [ngf_uniform_buffer_map_range (buf_ s) current_offset (aligned_size_ s)
      (map_flags current_offset);
    memcpy mapped_buf data sizeof_T;
    ngf_uniform_buffer_flush_range (buf_ s) current_offset (aligned_size_ s);
    ngf_uniform_buffer_unmap (buf_ s)],
   Returns {| buf_ := buf_ s;
              frame_ := u32_add (frame_ s) 1 mod nframes_ s;
              current_offset_ := size_mul (frame_ s) (aligned_size_ s);
              nframes_ := nframes_ s;
              aligned_size_ := aligned_size_ s |}).
Proof.
  intros Hm Hn. unfold write.
  destruct (decide (mapped_buf = nullptr)) as [|_]; [contradiction|].
  destruct (decide (nframes_ s = 0)) as [|_]; [contradiction|]. reflexivity.
Qed.

(** The ring index advances by one modulo the frame count. *)
Lemma next_frame (frame nframes : Z) :
  0 <= frame < nframes -> nframes <= UINT32_MAX ->
  u32_add frame 1 mod nframes = (frame + 1) mod nframes /\
  0 <= u32_add frame 1 mod nframes < nframes.
Proof.
  intros Hf Hn. unfold u32_add. rewrite wrap_u32_small by lia.
  split; [reflexivity|]. apply Z.mod_pos_bound. lia.
Qed.

Lemma writes_ring (inputs : list (Z * list Byte.byte)) : forall s : t,
  ring_ok s ->
  Forall (fun i => fst i <> nullptr) inputs ->
  exists cs s',
    writes sizeof_T inputs s = (cs, Returns s') /\
    buf_ s' = buf_ s /\ nframes_ s' = nframes_ s /\
    aligned_size_ s' = aligned_size_ s /\
    frame_ s' = (frame_ s + Z.of_nat (length inputs)) mod nframes_ s /\
    current_offset_ s' =
      match inputs with
      | [] => current_offset_ s
      | _ => size_mul ((frame_ s + Z.of_nat (length inputs) - 1) mod nframes_ s)
               (aligned_size_ s)
      end /\
    Forall (fun c => forall b off sz,
              (c = ngf_uniform_buffer_flush_range b off sz \/
               exists fl, c = ngf_uniform_buffer_map_range b off sz fl) ->
              sz = aligned_size_ s /\
              exists f, 0 <= f < nframes_ s /\ off = size_mul f (aligned_size_ s)) cs.
Proof.
  induction inputs as [|[mapped_buf data] rest IH]; intros s [Hn Hf] Hall.
  - exists [], s. cbn [writes length]. repeat split; try reflexivity.
    + rewrite Z.add_0_r. symmetry. apply Z.mod_small. lia.
    + constructor.
  - inversion Hall as [|? ? Hm Hrest]; subst. cbn [fst] in Hm.
    cbn [writes]. rewrite write_returns by (try assumption; lia).
    cbv zeta.
    set (s1 := {| buf_ := buf_ s; frame_ := _; current_offset_ := _;
                  nframes_ := nframes_ s; aligned_size_ := aligned_size_ s |}).
    destruct (next_frame (frame_ s) (nframes_ s) Hf ltac:(lia)) as [Hnext Hrange].
    destruct (IH s1) as (cs & s' & Hrun & Hb & Hnf & Has & Hfr & Hoff & Hcs).
    { split; cbn; [lia | exact Hrange]. }
    { exact Hrest. }
    rewrite Hrun. eexists _, s'. split; [reflexivity|].
    cbn [buf_ nframes_ aligned_size_ frame_ current_offset_ s1] in *.
    repeat split; try assumption.
    + rewrite Hfr, Hnext. cbn [length]. rewrite Zplus_mod_idemp_l. f_equal. lia.
    + rewrite Hoff. destruct rest as [|i rest'].
      * cbn [length]. f_equal. replace (frame_ s + Z.of_nat 1 - 1) with (frame_ s) by lia.
        symmetry. apply Z.mod_small. lia.
      * rewrite Hnext. f_equal. rewrite <- Zminus_mod_idemp_l.
        rewrite <- (Zplus_mod_idemp_l ((frame_ s + 1) mod nframes_ s)).
        rewrite Zmod_mod. rewrite Zplus_mod_idemp_l. rewrite Zminus_mod_idemp_l.
        f_equal. cbn [length]. lia.
    + repeat (apply Forall_cons; split); try exact Hcs;
        intros b' off' sz' [Heq|[fl Heq]]; try discriminate;
        injection Heq; intros; subst; (split; [reflexivity|]);
        exists (frame_ s); (split; [lia | reflexivity]).
Qed.

End streamed_uniform_facts.

(** C1. In every call of [write] the map request is the first call made and
    the only map request; it names the offset computed for the call, and its
    flags are a function of that offset alone: they always carry the write
    bit, they carry the discard bit if and only if the offset is 0, and for a
    non-zero offset they are the write bit and nothing else.  The two flag
    bits of the header are taken to be distinct. *)
Theorem C1_discard_iff_offset_zero (hdr : nicegraf_h) (sizeof_T mapped_buf : Z)
    (data : list Byte.byte) (s : streamed_uniform.t) :
  Z.land NGF_BUFFER_MAP_WRITE_BIT NGF_BUFFER_MAP_DISCARD_BIT = 0 ->
  NGF_BUFFER_MAP_DISCARD_BIT <> 0 ->
  let offset := size_mul (streamed_uniform.frame_ s) (streamed_uniform.aligned_size_ s) in
  let flags := streamed_uniform.map_flags offset in
  (exists rest,
     fst (streamed_uniform.write sizeof_T mapped_buf data s) =
       ngf_uniform_buffer_map_range (streamed_uniform.buf_ s) offset
         (streamed_uniform.aligned_size_ s) flags :: rest /\
     forallb (fun c => negb (is_map_range c)) rest = true) /\
  Z.land flags NGF_BUFFER_MAP_WRITE_BIT = NGF_BUFFER_MAP_WRITE_BIT /\
  (Z.land flags NGF_BUFFER_MAP_DISCARD_BIT = NGF_BUFFER_MAP_DISCARD_BIT <-> offset = 0) /\
  (offset <> 0 -> flags = NGF_BUFFER_MAP_WRITE_BIT).
Proof.
  intros Hdisjoint Hdiscard offset flags. split; [|split; [|split]].
  - unfold streamed_uniform.write. fold offset. fold flags.
    destruct (decide (mapped_buf = nullptr)); [|destruct (decide (streamed_uniform.nframes_ s = 0))];
      eexists; (split; [reflexivity|reflexivity]).
  - unfold flags, streamed_uniform.map_flags. destruct (decide (offset = 0)).
    + apply land_lor_absorb.
    + apply Z.land_diag.
  - unfold flags, streamed_uniform.map_flags. destruct (decide (offset = 0)) as [Hz|Hnz].
    + split; [intros _; exact Hz|intros _].
      apply land_lor_absorb.
    + split; [|contradiction]. rewrite Hdisjoint. intros Heq. congruence.
  - intros Hnz. unfold flags, streamed_uniform.map_flags.
    destruct (decide (offset = 0)); [contradiction|reflexivity].
Qed.

Lemma C1_discard_iff_offset_zero_witness :
  Z.land 2 4 = 0 /\
  let s := snd (streamed_uniform.construct (H := sample_header) 68 3
                  {| status := NGF_ERROR_OK; written := Some 7 |}) in
  (exists rest,
     fst (streamed_uniform.write (H := sample_header) 68 4096 sample_payload s) =
       ngf_uniform_buffer_map_range 7 0 256 6 :: rest /\
     forallb (fun c => negb (is_map_range c)) rest = true) /\
  Z.land 6 2 = 2 /\ (Z.land 6 4 = 4 <-> 0 = 0) /\ (0 <> 0 -> 6 = 2).
Proof.
  split; [reflexivity|].
  exact (C1_discard_iff_offset_zero sample_header 68 4096 sample_payload
           (snd (streamed_uniform.construct (H := sample_header) 68 3
                   {| status := NGF_ERROR_OK; written := Some 7 |}))
           eq_refl ltac:(discriminate)).
Defined.

(** C2. On a ring of [N >= 1] slots, [k >= 1] calls of [write] (each handed
    a mapped pointer) return, and leave [current_offset_] at the product of
    [(k - 1) mod N] and the slot size, computed as the code computes it in
    [size_t]; it is that product of integers whenever the size of the backing
    buffer, slot size times [N], is a [size_t] value.  The ring index is then
    [k mod N]: it advances by one modulo [N] with every call. *)
Theorem C2_offset_after_k_writes (hdr : nicegraf_h) (sizeof_T N : Z)
    (reply : create_reply) (inputs : list (Z * list Byte.byte)) :
  1 <= N <= UINT32_MAX ->
  inputs <> [] ->
  Forall (fun i => fst i <> nullptr) inputs ->
  let s0 := snd (streamed_uniform.construct sizeof_T N reply) in
  let k := Z.of_nat (length inputs) in
  exists cs s',
    streamed_uniform.writes sizeof_T inputs s0 = (cs, Returns s') /\
    streamed_uniform.frame_ s' = k mod N /\
    streamed_uniform.current_offset_ s' =
      size_mul ((k - 1) mod N) (streamed_uniform.aligned_size_ s0) /\
    (streamed_uniform.aligned_size_ s0 * N <= SIZE_MAX ->
     streamed_uniform.current_offset_ s' =
       ((k - 1) mod N) * streamed_uniform.aligned_size_ s0).
Proof.
  intros HN Hne Hall s0 k.
  destruct (writes_ring sizeof_T inputs s0) as (cs & s' & Hrun & _ & _ & _ & Hfr & Hoff & _).
  { unfold streamed_uniform.ring_ok, s0. rewrite construct_state.
    cbn [snd streamed_uniform.nframes_ streamed_uniform.frame_]. lia. }
  { exact Hall. }
  exists cs, s'. split; [exact Hrun|].
  assert (Hoff' : streamed_uniform.current_offset_ s' =
                  size_mul ((k - 1) mod N) (streamed_uniform.aligned_size_ s0)).
  { rewrite Hoff. destruct inputs; [contradiction|reflexivity]. }
  split; [exact Hfr|]. split; [exact Hoff'|].
  intros Hfit. rewrite Hoff'. apply size_mul_small.
  pose proof (aligned_size_range sizeof_T) as Ha.
  pose proof (Z.mod_pos_bound (k - 1) N ltac:(lia)) as Hm.
  change (streamed_uniform.aligned_size_ s0) with (streamed_uniform.aligned_size sizeof_T) in *.
  split; [apply Z.mul_nonneg_nonneg; lia|].
  transitivity (N * streamed_uniform.aligned_size sizeof_T); [|lia].
  apply Z.mul_le_mono_nonneg_r; lia.
Qed.

Lemma C2_offset_after_k_writes_witness :
  exists cs s',
    streamed_uniform.writes (H := sample_header) 68
      [(4096, sample_payload); (4096, sample_payload); (4096, sample_payload);
       (4096, sample_payload)]
      (snd (streamed_uniform.construct (H := sample_header) 68 3
              {| status := NGF_ERROR_OK; written := Some 7 |})) = (cs, Returns s') /\
    streamed_uniform.frame_ s' = 4 mod 3 /\
    streamed_uniform.current_offset_ s' = size_mul ((4 - 1) mod 3) 256 /\
    (256 * 3 <= SIZE_MAX -> streamed_uniform.current_offset_ s' = ((4 - 1) mod 3) * 256).
Proof.
  refine (C2_offset_after_k_writes sample_header 68 3
            {| status := NGF_ERROR_OK; written := Some 7 |}
            [(4096, sample_payload); (4096, sample_payload); (4096, sample_payload);
       (4096, sample_payload)] _ _ _).
  - unfold UINT32_MAX. lia.
  - discriminate.
  - repeat constructor; discriminate.
Defined.

(** C3. At a payload whose size is an exact multiple of the alignment the
    constructor does not compute the specification's slot size: for
    [sizeof(T) = 256] the slot is 512 bytes, where
    [ceil(256 / 256) * 256] is 256.  (Off the exact multiples the two agree,
    and the slot always holds the payload and is a multiple of 256:
    [aligned_size_spec_off_multiples], [aligned_size_fits].) *)
Theorem C3_slot_size_at_exact_multiple (hdr : nicegraf_h) (nframes : Z)
    (reply : create_reply) :
  streamed_uniform.aligned_size_ (snd (streamed_uniform.construct 256 nframes reply)) = 512 /\
  spec_slot_size 256 256 = 256 /\
  streamed_uniform.aligned_size_ (snd (streamed_uniform.construct 68 nframes reply)) = 256 /\
  spec_slot_size 68 256 = 256.
Proof. repeat split; reflexivity. Qed.

(** C4. The constructor drops what the backend's buffer creation returns:
    when creation fails with error [e] and stores no object, construction
    completes all the same, with an empty buffer handle and the ring fields
    of a successful construction; whatever the status, the constructed
    allocator and the calls made are those for [NGF_ERROR_OK]. *)
Theorem C4_creation_error_discarded (hdr : nicegraf_h) (sizeof_T nframes : Z)
    (e : positive) :
  streamed_uniform.construct sizeof_T nframes
    {| status := NGF_ERROR_CODE e; written := None |} =
  ([ngf_create_uniform_buffer2
      (size_mul (streamed_uniform.aligned_size sizeof_T) nframes)
      NGF_BUFFER_STORAGE_HOST_READABLE_WRITEABLE],
   {| streamed_uniform.buf_ := nullptr;
      streamed_uniform.frame_ := 0;
      streamed_uniform.current_offset_ := 0;
      streamed_uniform.nframes_ := nframes;
      streamed_uniform.aligned_size_ := streamed_uniform.aligned_size sizeof_T |}) /\
  forall (st : ngf_error) (w : option Z),
    streamed_uniform.construct sizeof_T nframes {| status := st; written := w |} =
    streamed_uniform.construct sizeof_T nframes {| status := NGF_ERROR_OK; written := w |}.
Proof. split; [reflexivity | intros st w; reflexivity]. Qed.

(** C5, as the specification states it, fails: when the backend's map
    fails (it returns no pointer) the call does not hand a failure back to
    its caller; after the one map request it goes on to copy the payload
    through the null pointer. *)
Lemma C5_map_failure_not_propagated :
  streamed_uniform.write (H := sample_header) 68 nullptr sample_payload
    (snd (streamed_uniform.construct (H := sample_header) 68 3
            {| status := NGF_ERROR_OK; written := Some 7 |})) =
  ([ngf_uniform_buffer_map_range 7 0 256 6], Undefined).
Proof. reflexivity. Qed.

(** C5, amended. [write] has no failure path and retries nothing.  On a ring
    with slots it makes one map request; handed a mapped pointer it then
    copies the payload once, flushes once and unmaps once, in this order, and
    returns to its caller with the ring advanced, a result that carries no
    status; handed a null pointer it makes no further backend call and its
    behaviour is undefined. *)
Theorem C5_write_has_no_failure_path (hdr : nicegraf_h) (sizeof_T mapped_buf : Z)
    (data : list Byte.byte) (s : streamed_uniform.t) :
  streamed_uniform.nframes_ s <> 0 ->
  let offset := size_mul (streamed_uniform.frame_ s) (streamed_uniform.aligned_size_ s) in
  let map_call :=
    ngf_uniform_buffer_map_range (streamed_uniform.buf_ s) offset
      (streamed_uniform.aligned_size_ s) (streamed_uniform.map_flags offset) in
  streamed_uniform.write sizeof_T mapped_buf data s =
  if decide (mapped_buf = nullptr)
  then ([map_call], Undefined)
  else ([map_call;
         memcpy mapped_buf data sizeof_T;
         ngf_uniform_buffer_flush_range (streamed_uniform.buf_ s) offset
           (streamed_uniform.aligned_size_ s);
         ngf_uniform_buffer_unmap (streamed_uniform.buf_ s)],
        Returns {| streamed_uniform.buf_ := streamed_uniform.buf_ s;
                   streamed_uniform.frame_ :=
                     u32_add (streamed_uniform.frame_ s) 1 mod streamed_uniform.nframes_ s;
                   streamed_uniform.current_offset_ := offset;
                   streamed_uniform.nframes_ := streamed_uniform.nframes_ s;
                   streamed_uniform.aligned_size_ := streamed_uniform.aligned_size_ s |}).
Proof.
  intros Hn offset map_call. destruct (decide (mapped_buf = nullptr)) as [->|Hm].
  - reflexivity.
  - rewrite write_returns by assumption. reflexivity.
Qed.

Lemma C5_write_has_no_failure_path_witness :
  streamed_uniform.write (H := sample_header) 68 4096 sample_payload
    (snd (streamed_uniform.construct (H := sample_header) 68 3
            {| status := NGF_ERROR_OK; written := Some 7 |})) =
  ([ngf_uniform_buffer_map_range 7 0 256 6;
    memcpy 4096 sample_payload 68;
    ngf_uniform_buffer_flush_range 7 0 256;
    ngf_uniform_buffer_unmap 7],
   Returns {| streamed_uniform.buf_ := 7;
              streamed_uniform.frame_ := 1;
              streamed_uniform.current_offset_ := 0;
              streamed_uniform.nframes_ := 3;
              streamed_uniform.aligned_size_ := 256 |}).
Proof.
  exact (C5_write_has_no_failure_path sample_header 68 4096 sample_payload
           (snd (streamed_uniform.construct (H := sample_header) 68 3
                   {| status := NGF_ERROR_OK; written := Some 7 |}))
           ltac:(discriminate)).
Defined.

(** C8. In every state of the allocator [bind_op_at_current_offset set
    binding] leaves the state as it is and returns the uniform-buffer bind op
    for [set] and [binding] (the one the encoder builds) whose payload is the
    backing buffer, the stored [current_offset_] and the slot size.  The
    stored offset is 0 after construction, and after a [write] that returns
    it is the offset that [write] computed and mapped. *)
Theorem C8_bind_op_at_current_offset (hdr : nicegraf_h) (sizeof_T : Z)
    (s : streamed_uniform.t) (set binding : Z) :
  let r := streamed_uniform.bind_op_at_current_offset set binding s in
  snd r = s /\
  op_type (fst r) = NGF_DESCRIPTOR_UNIFORM_BUFFER /\
  target_set (fst r) = set /\
  target_binding (fst r) = binding /\
  info (fst r) =
    uniform_buffer_info (streamed_uniform.buf_ s) (streamed_uniform.current_offset_ s)
      (streamed_uniform.aligned_size_ s) /\
  fst r = descriptor_set.uniform_buffer set binding (streamed_uniform.buf_ s)
            (streamed_uniform.current_offset_ s) (streamed_uniform.aligned_size_ s) /\
  (forall nframes reply,
     info (fst (streamed_uniform.bind_op_at_current_offset set binding
                  (snd (streamed_uniform.construct sizeof_T nframes reply)))) =
     uniform_buffer_info (default nullptr (written reply)) 0
       (streamed_uniform.aligned_size sizeof_T)) /\
  (forall mapped_buf data,
     match streamed_uniform.write sizeof_T mapped_buf data s with
     | (cs, Returns s') =>
         info (fst (streamed_uniform.bind_op_at_current_offset set binding s')) =
           uniform_buffer_info (streamed_uniform.buf_ s)
             (size_mul (streamed_uniform.frame_ s) (streamed_uniform.aligned_size_ s))
             (streamed_uniform.aligned_size_ s) /\
         exists flags rest,
           cs = ngf_uniform_buffer_map_range (streamed_uniform.buf_ s)
                  (size_mul (streamed_uniform.frame_ s) (streamed_uniform.aligned_size_ s))
                  (streamed_uniform.aligned_size_ s) flags :: rest
     | (_, Undefined) => True
     end).
Proof.
  cbv zeta. repeat split.
  intros mapped_buf data. unfold streamed_uniform.write.
  destruct (decide (mapped_buf = nullptr)); [exact I|].
  destruct (decide (streamed_uniform.nframes_ s = 0)); [exact I|].
  split; [reflexivity|]. eexists _, _. reflexivity.
Qed.

(** C10, as the specification states it, fails: [N >= 1] alone does not keep
    the mapped ranges inside the buffer.  For a payload of [2 ^ 32] bytes and
    [N = 2 ^ 32 - 1] the slot is [2 ^ 32 + 256] bytes and the buffer size the
    constructor computes wraps around in [size_t]: it asks the backend for
    1095216660224 bytes.  The 255th call of [write], at frame 254, maps and
    flushes the range from 1090921758208 of that length, which ends beyond the
    buffer. *)
Lemma C10_range_outside_wrapped_buffer :
  fst (streamed_uniform.construct (H := sample_header) (2 ^ 32) (2 ^ 32 - 1)
         {| status := NGF_ERROR_OK; written := Some 7 |}) =
    [ngf_create_uniform_buffer2 1095216660224 1] /\
  exists cs s',
    streamed_uniform.writes (H := sample_header) (2 ^ 32) (repeat (4096, []) 255)
      (snd (streamed_uniform.construct (H := sample_header) (2 ^ 32) (2 ^ 32 - 1)
              {| status := NGF_ERROR_OK; written := Some 7 |})) = (cs, Returns s') /\
    In (ngf_uniform_buffer_map_range 7 1090921758208 4294967552 2) cs /\
    ~ range_within 1095216660224
        (ngf_uniform_buffer_map_range 7 1090921758208 4294967552 2).
Proof.
  split; [vm_compute; reflexivity|].
  destruct (streamed_uniform.writes (H := sample_header) (2 ^ 32) (repeat (4096, []) 255)
              (snd (streamed_uniform.construct (H := sample_header) (2 ^ 32) (2 ^ 32 - 1)
                      {| status := NGF_ERROR_OK; written := Some 7 |})))
    as [cs o] eqn:Hrun.
  vm_compute in Hrun. injection Hrun as <- <-.
  eexists _, _. split; [reflexivity|]. split.
  - apply list_elem_of_In, list_elem_of_lookup. exists 1016%nat. reflexivity.
  - cbn [range_within]. lia.
Qed.

(** C10, amended. For a ring of [N >= 1] slots whose backing buffer size, slot size
    times [N], is a [size_t] value: the constructor asks the backend for a
    buffer of exactly that size, and any number of calls of [write] (each
    handed a mapped pointer) return with the frame index a slot of the ring,
    [0 <= frame_ < N], every map and flush request among the calls naming a
    byte range inside the buffer.  As the number of calls is arbitrary this
    holds before and after each of them.  [N >= 1] is needed: with [N = 0] a
    call of [write] has undefined behaviour, the remainder by the frame
    count. *)
Theorem C10_writes_stay_in_buffer (hdr : nicegraf_h) (sizeof_T N : Z)
    (reply : create_reply) (inputs : list (Z * list Byte.byte)) :
  1 <= N <= UINT32_MAX ->
  streamed_uniform.aligned_size sizeof_T * N <= SIZE_MAX ->
  Forall (fun i => fst i <> nullptr) inputs ->
  let buffer_size := streamed_uniform.aligned_size sizeof_T * N in
  fst (streamed_uniform.construct sizeof_T N reply) =
    [ngf_create_uniform_buffer2 buffer_size NGF_BUFFER_STORAGE_HOST_READABLE_WRITEABLE] /\
  streamed_uniform.frame_ (snd (streamed_uniform.construct sizeof_T N reply)) = 0 /\
  (exists cs s',
     streamed_uniform.writes sizeof_T inputs
       (snd (streamed_uniform.construct sizeof_T N reply)) = (cs, Returns s') /\
     0 <= streamed_uniform.frame_ s' < N /\
     Forall (range_within buffer_size) cs) /\
  (forall mapped_buf data reply',
     snd (streamed_uniform.write sizeof_T mapped_buf data
            (snd (streamed_uniform.construct sizeof_T 0 reply'))) = Undefined).
Proof.
  intros HN Hfit Hall buffer_size.
  pose proof (aligned_size_range sizeof_T) as Ha.
  split; [|split; [reflexivity|split]].
  - rewrite construct_state. cbn [fst]. do 2 f_equal.
    apply size_mul_small. split; [apply Z.mul_nonneg_nonneg; lia | exact Hfit].
  - destruct (writes_ring sizeof_T inputs
                (snd (streamed_uniform.construct sizeof_T N reply)))
      as (cs & s' & Hrun & _ & _ & _ & Hfr & _ & Hcs).
    { unfold streamed_uniform.ring_ok. rewrite construct_state.
      cbn [snd streamed_uniform.nframes_ streamed_uniform.frame_]. lia. }
    { exact Hall. }
    rewrite construct_state in Hfr, Hcs.
    cbn [snd streamed_uniform.nframes_ streamed_uniform.frame_
         streamed_uniform.aligned_size_] in Hfr, Hcs.
    exists cs, s'. split; [exact Hrun|]. split.
    + rewrite Hfr. apply Z.mod_pos_bound. lia.
    + eapply Forall_impl; [exact Hcs|]. intros c Hc.
      assert (Hin : forall f, 0 <= f < N ->
                0 <= size_mul f (streamed_uniform.aligned_size sizeof_T) /\
                size_mul f (streamed_uniform.aligned_size sizeof_T) +
                  streamed_uniform.aligned_size sizeof_T <= buffer_size).
      { intros f Hf.
        assert (Hle : (f + 1) * streamed_uniform.aligned_size sizeof_T <=
                      N * streamed_uniform.aligned_size sizeof_T)
          by (apply Z.mul_le_mono_nonneg_r; lia).
        assert (H0 : 0 <= f * streamed_uniform.aligned_size sizeof_T)
          by (apply Z.mul_nonneg_nonneg; lia).
        rewrite size_mul_small by lia. unfold buffer_size. lia. }
      destruct c; try exact I; cbn [range_within].
      * destruct (Hc buf offset size) as [-> (f & Hf & ->)];
          [right; eexists; reflexivity | apply Hin, Hf].
      * destruct (Hc buf offset size) as [-> (f & Hf & ->)];
          [left; reflexivity | apply Hin, Hf].
  - intros mapped_buf data reply'. rewrite construct_state. cbn [snd].
    unfold streamed_uniform.write. cbn [streamed_uniform.nframes_].
    destruct (decide (mapped_buf = nullptr)); [reflexivity|].
    destruct (decide (0 = 0)); [reflexivity|contradiction].
Qed.

Lemma C10_writes_stay_in_buffer_witness :
  fst (streamed_uniform.construct (H := sample_header) 68 3
         {| status := NGF_ERROR_OK; written := Some 7 |}) =
    [ngf_create_uniform_buffer2 (256 * 3) 1] /\
  streamed_uniform.frame_
    (snd (streamed_uniform.construct (H := sample_header) 68 3
            {| status := NGF_ERROR_OK; written := Some 7 |})) = 0 /\
  (exists cs s',
     streamed_uniform.writes (H := sample_header) 68
       [(4096, sample_payload); (4096, sample_payload); (4096, sample_payload);
       (4096, sample_payload)]
       (snd (streamed_uniform.construct (H := sample_header) 68 3
               {| status := NGF_ERROR_OK; written := Some 7 |})) = (cs, Returns s') /\
     0 <= streamed_uniform.frame_ s' < 3 /\
     Forall (range_within (256 * 3)) cs) /\
  (forall mapped_buf data reply',
     snd (streamed_uniform.write (H := sample_header) 68 mapped_buf data
            (snd (streamed_uniform.construct (H := sample_header) 68 0 reply'))) =
     Undefined).
Proof.
  refine (C10_writes_stay_in_buffer sample_header 68 3
            {| status := NGF_ERROR_OK; written := Some 7 |}
            [(4096, sample_payload); (4096, sample_payload); (4096, sample_payload);
       (4096, sample_payload)] _ _ _).
  - unfold UINT32_MAX. lia.
  - vm_compute. discriminate.
  - repeat constructor; discriminate.
Defined.

(** ** ngf_handle: ownership *)
Import ownership.

Lemma destroy_count_app p cs1 cs2 :
  destroy_count p (cs1 ++ cs2) = (destroy_count p cs1 + destroy_count p cs2)%nat.
Proof. induction cs1 as [|c cs1 IH]; cbn; [reflexivity|]. rewrite IH. lia. Qed.

Lemma destroy_count_destroy name p q :
  destroy_count p [ngf_destroy name q] = if decide (q = p) then 1%nat else O.
Proof. cbn. unfold bool_decide. destruct (decide_rel eq q p), (decide (q = p)); try reflexivity; contradiction. Qed.

Lemma inv_start : inv start.
Proof.
  split; cbn.
  - lia.
  - intros h p Hl. rewrite lookup_empty in Hl. discriminate.
  - intros h1 h2 p Hl. rewrite lookup_empty in Hl. discriminate.
  - intros p Hp. apply elem_of_empty in Hp. contradiction.
  - intros p. split; [lia|congruence].
  - intros p [? ?]. unfold start in *; cbn in *. lia.
Qed.

(* destroying the object a handle holds *)
Lemma inv_destroy name lv cs nx raw h p :
  inv {| live := lv; calls := cs; next_object := nx; raw_owned := raw |} ->
  lv !! h = Some p -> p <> nullptr ->
  inv {| live := <[h := nullptr]> lv; calls := cs ++ [ngf_destroy name p];
         next_object := nx; raw_owned := raw |}.
Proof.
  intros [Hn Hh Hu Hr Hd Hc] Hl Hp. unfold created, held in *. cbn in *.
  destruct (Hh h p Hl Hp) as (Hcr & Hnr & Hd0).
  split; cbn; unfold created, held; cbn.
  - exact Hn.
  - intros h' q Hl' Hq. destruct (decide (h = h')) as [->|Hne].
    + rewrite lookup_insert_eq in Hl'. congruence.
    + rewrite lookup_insert_ne in Hl' by assumption.
      destruct (Hh h' q Hl' Hq) as (? & ? & ?). repeat split; try tauto.
      rewrite destroy_count_app, destroy_count_destroy.
      destruct (decide (p = q)) as [->|]; [|lia]. exfalso. apply Hne. eapply Hu; eauto.
  - intros h1 h2 q H1 H2 Hq.
    destruct (decide (h = h1)) as [->|]; [rewrite lookup_insert_eq in H1; congruence|].
    destruct (decide (h = h2)) as [->|]; [rewrite lookup_insert_eq in H2; congruence|].
    rewrite lookup_insert_ne in H1, H2 by assumption. eauto.
  - intros q Hq. destruct (Hr q Hq) as [? ?]. split; [assumption|].
    rewrite destroy_count_app, destroy_count_destroy.
    destruct (decide (p = q)) as [->|]; [contradiction|lia].
  - intros q. destruct (Hd q) as [? ?]. rewrite destroy_count_app, destroy_count_destroy.
    destruct (decide (p = q)) as [->|]; [|split; [lia|intros; apply H0; lia]].
    split; [lia|intros _; assumption].
  - intros q Hq. rewrite destroy_count_app, destroy_count_destroy.
    destruct (decide (p = q)) as [->|Hne]; [right; right; lia|].
    destruct (Hc q Hq) as [[h' Hl']|[?|?]]; [|tauto|right; right; lia].
    left. exists h'. rewrite lookup_insert_ne; [assumption|]. intros ->. congruence.
Qed.

Lemma destroy_count_create name p : destroy_count p [ngf_create name] = O.
Proof. reflexivity. Qed.

(* a call that is no destroy leaves the invariant alone *)
Lemma inv_create_failed name lv cs nx raw :
  inv {| live := lv; calls := cs; next_object := nx; raw_owned := raw |} ->
  inv {| live := lv; calls := cs ++ [ngf_create name]; next_object := nx; raw_owned := raw |}.
Proof.
  intros [Hn Hh Hu Hr Hd Hc]. unfold created, held in *. cbn in *.
  split; cbn; unfold created, held; cbn; try assumption;
    intros; rewrite destroy_count_app, destroy_count_create, Nat.add_0_r; eauto.
Qed.

(* the backend makes a new object *)
Lemma inv_new_object lv cs nx raw :
  inv {| live := lv; calls := cs; next_object := nx; raw_owned := raw |} ->
  inv {| live := lv; calls := cs; next_object := nx + 1; raw_owned := {[nx]} ∪ raw |}.
Proof.
  intros [Hn Hh Hu Hr Hd Hc]. unfold created, held in *. cbn in *.
  assert (Hfresh : nx ∉ raw) by (intros Hin; destruct (Hr nx Hin); lia).
  split; cbn; unfold created, held; cbn.
  - lia.
  - intros h p Hl Hp. destruct (Hh h p Hl Hp) as (? & ? & ?).
    repeat split; try lia. intros Hin. apply elem_of_union in Hin as [Hin|Hin];
      [apply elem_of_singleton in Hin; lia | contradiction].
  - exact Hu.
  - intros p Hp. apply elem_of_union in Hp as [Hp|Hp].
    + apply elem_of_singleton in Hp as ->. split; [lia|].
      destruct (Hd nx) as [_ Hd']. destruct (destroy_count nx cs); [reflexivity|].
      assert (0 < nx < nx) by (apply Hd'; discriminate). lia.
    + destruct (Hr p Hp). split; [lia|assumption].
  - intros p. destruct (Hd p) as [? Hd']. split; [assumption|]. intros Hne.
    specialize (Hd' Hne). lia.
  - intros p Hp. destruct (decide (p = nx)) as [->|Hne].
    { right. left. apply elem_of_union. left. apply elem_of_singleton. reflexivity. }
    destruct (Hc p ltac:(lia)) as [?|[?|?]]; [tauto | | tauto].
    right. left. apply elem_of_union. right. assumption.
Qed.

(* a handle that holds nothing is given a raw object the client holds, or null *)
Lemma inv_adopt lv cs nx raw h q :
  inv {| live := lv; calls := cs; next_object := nx; raw_owned := raw |} ->
  lv !! h = Some nullptr \/ lv !! h = None ->
  q = nullptr \/ q ∈ raw ->
  inv {| live := <[h := q]> lv; calls := cs; next_object := nx; raw_owned := raw ∖ {[q]} |}.
Proof.
  intros [Hn Hh Hu Hr Hd Hc] Hl Hq. unfold created, held in *. cbn in *.
  assert (Hold : forall h' p, lv !! h' = Some p -> p <> nullptr -> h' <> h).
  { intros h' p Hl' Hp ->. destruct Hl as [Hl|Hl]; congruence. }
  split; cbn; unfold created, held; cbn.
  - exact Hn.
  - intros h' p Hl' Hp. destruct (decide (h = h')) as [->|Hne].
    + rewrite lookup_insert_eq in Hl'. injection Hl' as ->.
      destruct Hq as [Hq|Hq]; [contradiction|]. destruct (Hr p Hq).
      repeat split; try tauto. intros Hin. apply elem_of_difference in Hin as [_ Hin].
      apply Hin, elem_of_singleton. reflexivity.
    + rewrite lookup_insert_ne in Hl' by assumption.
      destruct (Hh h' p Hl' Hp) as (? & ? & ?). repeat split; try tauto.
      intros Hin. apply elem_of_difference in Hin as [Hin _]. contradiction.
  - intros h1 h2 p H1 H2 Hp.
    destruct (decide (h1 = h)) as [->|N1]; destruct (decide (h2 = h)) as [->|N2];
      try reflexivity.
    + rewrite lookup_insert_eq in H1. rewrite lookup_insert_ne in H2 by congruence.
      injection H1 as ->. destruct Hq as [Hq|Hq]; [contradiction|].
      destruct (Hh h2 p H2 Hp) as (? & ? & ?). contradiction.
    + rewrite lookup_insert_eq in H2. rewrite lookup_insert_ne in H1 by congruence.
      injection H2 as ->. destruct Hq as [Hq|Hq]; [contradiction|].
      destruct (Hh h1 p H1 Hp) as (? & ? & ?). contradiction.
    + rewrite lookup_insert_ne in H1, H2 by congruence. eauto.
  - intros p Hp. apply Hr. apply elem_of_difference in Hp as [Hp _]. exact Hp.
  - exact Hd.
  - intros p Hp. destruct (Hc p Hp) as [[h' Hl']|[Hin|?]]; [| |tauto].
    + left. exists h'. rewrite lookup_insert_ne; [assumption|].
      intros ->. eapply (Hold h' p); eauto. unfold nullptr. lia.
    + destruct (decide (p = q)) as [->|Hne].
      * left. exists h. apply lookup_insert_eq.
      * right. left. apply elem_of_difference. split; [assumption|].
        intros E. apply elem_of_singleton in E. contradiction.
Qed.

Lemma inv_no_null_raw w : inv w -> nullptr ∉ raw_owned w.
Proof. intros [_ _ _ Hr _ _] Hin. destruct (Hr _ Hin) as [[? _] _]. unfold nullptr in *. lia. Qed.

(* moving the object of handle [a] into the empty handle [b] *)
Lemma inv_move lv cs nx raw a b pa :
  inv {| live := lv; calls := cs; next_object := nx; raw_owned := raw |} ->
  lv !! a = Some pa -> lv !! b = Some nullptr -> a <> b ->
  inv {| live := <[a := nullptr]> (<[b := pa]> lv); calls := cs;
         next_object := nx; raw_owned := raw |}.
Proof.
  intros [Hn Hh Hu Hr Hd Hc] Ha Hb Hab. unfold created, held in *. cbn in *.
  assert (Hlk : forall h p, <[a := nullptr]> (<[b := pa]> lv) !! h = Some p ->
                  p <> nullptr -> (h = b /\ p = pa) \/ (h <> a /\ h <> b /\ lv !! h = Some p)).
  { intros h p Hl Hp. destruct (decide (h = a)) as [->|Na].
    - rewrite lookup_insert_eq in Hl. congruence.
    - rewrite lookup_insert_ne in Hl by congruence.
      destruct (decide (h = b)) as [->|Nb].
      + rewrite lookup_insert_eq in Hl. left. split; congruence.
      + rewrite lookup_insert_ne in Hl by congruence. right. tauto. }
  split; cbn; unfold created, held; cbn; try assumption.
  - intros h p Hl Hp. destruct (Hlk h p Hl Hp) as [[-> ->]|(_ & _ & Hl')]; eauto.
  - intros h1 h2 p H1 H2 Hp.
    destruct (Hlk h1 p H1 Hp) as [[E1 E1']|(? & ? & H1')];
      destruct (Hlk h2 p H2 Hp) as [[E2 E2']|(? & ? & H2')]; subst.
    + reflexivity.
    + exfalso. assert (h2 = a) by (eapply Hu; eauto). contradiction.
    + exfalso. assert (h1 = a) by (eapply Hu; eauto). contradiction.
    + eauto.
  - intros p Hp. destruct (Hc p Hp) as [[h Hl]|[?|?]]; [|tauto|tauto].
    left. destruct (decide (h = a)) as [->|Na].
    + exists b. rewrite lookup_insert_ne by congruence. rewrite lookup_insert_eq. congruence.
    + exists h. rewrite lookup_insert_ne by congruence.
      rewrite lookup_insert_ne; [assumption|]. intros ->.
      rewrite Hb in Hl. injection Hl as <-. unfold nullptr in Hp. lia.
Qed.

(* release: the object goes from the handle to the client *)
Lemma inv_release lv cs nx raw h p :
  inv {| live := lv; calls := cs; next_object := nx; raw_owned := raw |} ->
  lv !! h = Some p ->
  inv {| live := <[h := nullptr]> lv; calls := cs; next_object := nx;
         raw_owned := if decide (p = nullptr) then raw else {[p]} ∪ raw |}.
Proof.
  intros [Hn Hh Hu Hr Hd Hc] Hl. unfold created, held in *. cbn in *.
  assert (Hsub : forall q, q ∈ raw -> q ∈ (if decide (p = nullptr) then raw else {[p]} ∪ raw)).
  { intros q Hq. destruct (decide (p = nullptr)); [assumption|].
    apply elem_of_union. right. assumption. }
  assert (Hinv : forall q, q ∈ (if decide (p = nullptr) then raw else {[p]} ∪ raw) ->
                   q ∈ raw \/ (q = p /\ p <> nullptr)).
  { intros q Hq. destruct (decide (p = nullptr)); [tauto|].
    apply elem_of_union in Hq as [Hq|Hq]; [|tauto].
    apply elem_of_singleton in Hq. tauto. }
  split; cbn; unfold created, held; cbn; try assumption.
  - intros h' q Hl' Hq. destruct (decide (h' = h)) as [->|Nh].
    + rewrite lookup_insert_eq in Hl'. congruence.
    + rewrite lookup_insert_ne in Hl' by congruence.
      destruct (Hh h' q Hl' Hq) as (? & ? & ?). repeat split; try tauto.
      intros Hin. destruct (Hinv q Hin) as [?|[-> _]]; [contradiction|].
      apply Nh. eapply Hu; eauto.
  - intros h1 h2 q H1 H2 Hq.
    destruct (decide (h1 = h)) as [->|N1]; [rewrite lookup_insert_eq in H1; congruence|].
    destruct (decide (h2 = h)) as [->|N2]; [rewrite lookup_insert_eq in H2; congruence|].
    rewrite lookup_insert_ne in H1, H2 by congruence. eauto.
  - intros q Hq. destruct (Hinv q Hq) as [?|[-> Hp]]; [eauto|].
    destruct (Hh h p Hl Hp) as (? & ? & ?). tauto.
  - intros q Hq. destruct (Hc q Hq) as [[h' Hl']|[?|?]]; [|right; left; eauto|tauto].
    destruct (decide (h' = h)) as [->|Nh].
    + right. left. rewrite Hl in Hl'. injection Hl' as ->.
      destruct (decide (q = nullptr)) as [->|]; [unfold nullptr in Hq; lia|].
      apply elem_of_union. left. apply elem_of_singleton. reflexivity.
    + left. exists h'. rewrite lookup_insert_ne by congruence. assumption.
Qed.

(* a handle that holds nothing leaves scope *)
Lemma inv_dealloc lv cs nx raw h :
  inv {| live := lv; calls := cs; next_object := nx; raw_owned := raw |} ->
  lv !! h = Some nullptr ->
  inv {| live := delete h lv; calls := cs; next_object := nx; raw_owned := raw |}.
Proof.
  intros [Hn Hh Hu Hr Hd Hc] Hl. unfold created, held in *. cbn in *.
  assert (Hlk : forall h' p, delete h lv !! h' = Some p -> lv !! h' = Some p).
  { intros h' p Hl'. destruct (decide (h' = h)) as [->|Nh].
    - rewrite lookup_delete_eq in Hl'. discriminate.
    - rewrite lookup_delete_ne in Hl' by congruence. assumption. }
  split; cbn; unfold created, held; cbn; try assumption; eauto.
  intros p Hp. destruct (Hc p Hp) as [[h' Hl']|[?|?]]; [|tauto|tauto].
  left. exists h'. rewrite lookup_delete_ne; [assumption|]. intros ->.
  rewrite Hl in Hl'. injection Hl' as <-. unfold nullptr in Hp. lia.
Qed.

(* an empty handle comes into scope *)
Lemma inv_alloc_null lv cs nx raw h :
  inv {| live := lv; calls := cs; next_object := nx; raw_owned := raw |} ->
  lv !! h = None ->
  inv {| live := <[h := nullptr]> lv; calls := cs; next_object := nx; raw_owned := raw |}.
Proof.
  intros Hinv Hl.
  assert (Hraw : raw ∖ {[nullptr]} = raw).
  { pose proof (inv_no_null_raw _ Hinv) as H0. cbn in H0.
    apply set_eq. intros x. rewrite elem_of_difference, elem_of_singleton.
    split; [tauto|]. intros Hx. split; [assumption|]. intros ->. contradiction. }
  rewrite <- Hraw. apply inv_adopt; [exact Hinv | tauto | tauto].
Qed.

(* the backend makes a new object and stores it in an empty handle *)
Lemma inv_create_into name lv cs nx raw h :
  inv {| live := lv; calls := cs; next_object := nx; raw_owned := raw |} ->
  lv !! h = Some nullptr ->
  inv {| live := <[h := nx]> lv; calls := cs ++ [ngf_create name];
         next_object := nx + 1; raw_owned := raw |}.
Proof.
  intros Hinv Hl. apply inv_create_failed.
  assert (Hraw : ({[nx]} ∪ raw) ∖ {[nx]} = raw).
  { assert (nx ∉ raw).
    { intros Hin. destruct Hinv as [_ _ _ Hr _ _]. destruct (Hr nx Hin) as [[? ?] _].
      cbn in *. lia. }
    apply set_eq. intros x.
    rewrite elem_of_difference, elem_of_union, elem_of_singleton.
    split; [tauto|]. intros Hx. split; [tauto|]. intros ->. contradiction. }
  rewrite <- Hraw. apply inv_adopt; [apply inv_new_object; exact Hinv | tauto |].
  right. apply elem_of_union. left. apply elem_of_singleton. reflexivity.
Qed.

Section steps.
Variable name : wrapper_type.

Lemma destroy_if_necessary_calls (p : Z) :
  ngf_handle.destroy_if_necessary name p =
  (tt, nullptr, if decide (p <> nullptr) then [ngf_destroy name p] else []).
Proof.
  unfold ngf_handle.destroy_if_necessary. destruct (decide (p <> nullptr)) as [|Hp].
  - reflexivity.
  - apply dec_stable in Hp. subst p. reflexivity.
Qed.

Lemma move_assign_distinct this other lv cs nx raw pt po :
  lv !! this = Some pt -> lv !! other = Some po -> this <> other ->
  move_assign name this other
    {| live := lv; calls := cs; next_object := nx; raw_owned := raw |} =
  Some (tt, {| live := <[other := nullptr]> (<[this := po]> lv);
               calls := cs ++ (if decide (pt <> nullptr) then [ngf_destroy name pt] else []);
               next_object := nx; raw_owned := raw |}).
Proof.
  intros Ht Ho Hne. unfold move_assign. unfold_monad.
  rewrite Ht, destroy_if_necessary_calls. cbn [live calls next_object raw_owned].
  rewrite lookup_insert_ne by congruence. rewrite Ho.
  unfold ngf_handle.get, ngf_handle.assign. cbn [live calls next_object raw_owned].
  rewrite lookup_insert_ne by congruence. rewrite lookup_insert_eq.
  cbn [live calls next_object raw_owned].
  rewrite lookup_insert_ne by congruence. rewrite lookup_insert_eq.
  rewrite !app_nil_r. do 3 f_equal.
  rewrite (insert_id _ other po) by (rewrite lookup_insert_ne by congruence; exact Ho).
  rewrite insert_insert_eq. reflexivity.
Qed.

Lemma move_assign_self this lv cs nx raw pt :
  lv !! this = Some pt ->
  move_assign name this this
    {| live := lv; calls := cs; next_object := nx; raw_owned := raw |} =
  Some (tt, {| live := <[this := nullptr]> lv;
               calls := cs ++ (if decide (pt <> nullptr) then [ngf_destroy name pt] else []);
               next_object := nx; raw_owned := raw |}).
Proof.
  intros Ht. unfold move_assign. unfold_monad.
  rewrite Ht, destroy_if_necessary_calls. cbn [live calls next_object raw_owned].
  rewrite lookup_insert_eq.
  unfold ngf_handle.get, ngf_handle.assign. cbn [live calls next_object raw_owned].
  rewrite lookup_insert_eq. cbn [live calls next_object raw_owned].
  rewrite lookup_insert_eq. rewrite !app_nil_r, !insert_insert_eq. reflexivity.
Qed.

(* the handle's own object is destroyed, if it holds one *)
Lemma inv_destroy_if lv cs nx raw h p :
  inv {| live := lv; calls := cs; next_object := nx; raw_owned := raw |} ->
  lv !! h = Some p ->
  inv {| live := <[h := nullptr]> lv;
         calls := cs ++ (if decide (p <> nullptr) then [ngf_destroy name p] else []);
         next_object := nx; raw_owned := raw |}.
Proof.
  intros Hinv Hl. destruct (decide (p <> nullptr)) as [Hp|Hp].
  - apply inv_destroy; assumption.
  - apply dec_stable in Hp. subst p. rewrite app_nil_r, insert_id by assumption. exact Hinv.
Qed.

Lemma step_inv (o : op) (w w' : world) :
  inv w -> contract o w = true -> step name o w = Some (tt, w') -> inv w'.
Proof.
  destruct w as [lv cs nx raw]. intros Hinv Hc Hs. destruct o as
    [this|this q|this other|this|this other|this st|this|this q|st]; cbn [step contract] in *.
  - (* DefaultCtor *)
    revert Hs. unfold_monad. destruct (lv !! this) eqn:Hl; [discriminate|].
    intros [= <-]. apply inv_alloc_null; assumption.
  - (* RawCtor *)
    revert Hs. unfold_monad. destruct (lv !! this) eqn:Hl; [discriminate|].
    intros [= <-]. apply bool_decide_eq_true in Hc. cbn in Hc.
    apply inv_adopt; tauto.
  - (* MoveCtor *)
    revert Hs. unfold move_construct. unfold_monad.
    destruct (lv !! other) as [po|] eqn:Ho; [|discriminate].
    unfold ngf_handle.get at 1. cbn [live calls next_object raw_owned].
    rewrite (insert_id _ other po) by exact Ho. rewrite app_nil_r.
    destruct (lv !! this) eqn:Ht; [discriminate|].
    assert (Hne : this <> other) by congruence.
    rewrite (move_assign_distinct this other _ _ _ _ nullptr po);
      [| apply lookup_insert_eq | rewrite lookup_insert_ne by congruence; exact Ho | exact Hne].
    intros [= <-].
    destruct (decide (nullptr <> nullptr)) as [|_]; [contradiction|]. rewrite app_nil_r.
    apply inv_move; [apply inv_alloc_null; assumption | | apply lookup_insert_eq | congruence].
    rewrite lookup_insert_ne by congruence. exact Ho.
  - (* Dtor *)
    revert Hs. unfold_monad. destruct (lv !! this) as [p|] eqn:Hl; [|discriminate].
    unfold ngf_handle.dtor. rewrite destroy_if_necessary_calls.
    cbn [live calls next_object raw_owned]. rewrite lookup_insert_eq.
    intros [= <-]. apply inv_dealloc; [|apply lookup_insert_eq].
    apply inv_destroy_if; assumption.
  - (* MoveAssign *)
    destruct (lv !! this) as [pt|] eqn:Ht.
    2:{ revert Hs. unfold move_assign. unfold_monad. rewrite Ht. discriminate. }
    destruct (decide (this = other)) as [<-|Hne].
    + rewrite (move_assign_self this _ _ _ _ pt Ht) in Hs. injection Hs as <-.
      apply inv_destroy_if; assumption.
    + destruct (lv !! other) as [po|] eqn:Ho.
      2:{ revert Hs. unfold move_assign. unfold_monad. rewrite Ht, destroy_if_necessary_calls.
          cbn [live calls next_object raw_owned].
          rewrite lookup_insert_ne by congruence. rewrite Ho. discriminate. }
      rewrite (move_assign_distinct this other _ _ _ _ pt po Ht Ho Hne) in Hs.
      injection Hs as <-.
      rewrite <- (insert_insert_eq lv this po nullptr).
      apply inv_move; [apply inv_destroy_if; assumption | | apply lookup_insert_eq | congruence].
      rewrite lookup_insert_ne by congruence. exact Ho.
  - (* Initialize *)
    revert Hs. unfold_monad. destruct st as [|e]; cbn [live calls next_object raw_owned].
    + destruct (lv !! this) as [p|] eqn:Hl; [|discriminate].
      unfold ngf_handle.initialize. rewrite destroy_if_necessary_calls.
      cbn [status written default]. intros [= <-].
      rewrite <- (insert_insert_eq lv this nx nullptr). rewrite app_assoc.
      apply inv_create_into; [|apply lookup_insert_eq]. apply inv_destroy_if; assumption.
    + destruct (lv !! this) as [p|] eqn:Hl; [|discriminate].
      unfold ngf_handle.initialize. rewrite destroy_if_necessary_calls.
      cbn [status written default]. intros [= <-]. rewrite app_assoc.
      apply inv_create_failed. apply inv_destroy_if; assumption.
  - (* Release *)
    revert Hs. unfold_monad. destruct (lv !! this) as [p|] eqn:Hl; [|discriminate].
    unfold ngf_handle.release. cbn [live calls next_object raw_owned].
    intros [= <-]. rewrite app_nil_r. apply inv_release; assumption.
  - (* Reset *)
    revert Hs. unfold_monad. destruct (lv !! this) as [p|] eqn:Hl; [|discriminate].
    unfold ngf_handle.reset. rewrite destroy_if_necessary_calls.
    cbn [live calls next_object raw_owned]. intros [= <-].
    apply bool_decide_eq_true in Hc. cbn in Hc.
    rewrite <- (insert_insert_eq lv this q nullptr).
    apply inv_adopt; [apply inv_destroy_if; assumption | left; apply lookup_insert_eq | exact Hc].
  - (* RawCreate *)
    revert Hs. unfold_monad. destruct st as [|e]; cbn [live calls next_object raw_owned written default].
    + intros [= <-]. destruct (decide (nx = nullptr)) as [E|_].
      { destruct Hinv as [Hn _ _ _ _ _]. cbn in Hn. unfold nullptr in E. lia. }
      apply inv_create_failed. apply inv_new_object. exact Hinv.
    + intros [= <-]. destruct (decide (nullptr = nullptr)) as [_|]; [|contradiction].
      apply inv_create_failed. exact Hinv.
Qed.
End steps.

(** *** No destroy call on the null object *)

Lemma bind_clean {A B} (m : M A) (k : A -> M B) :
  keeps_clean m -> (forall a, keeps_clean (k a)) -> keeps_clean (mbind k m).
Proof.
  intros Hm Hk w b w' Hrun H0. unfold mbind, M_bind in Hrun.
  destruct (m w) as [[a w1]|] eqn:Hmw; [|discriminate].
  eapply Hk; [exact Hrun|]. eapply Hm; eauto.
Qed.

Lemma invoke_clean {A} this (m : ngf_handle.method A) :
  method_clean m -> keeps_clean (invoke this m).
Proof.
  intros Hm w a w' Hrun H0. unfold invoke in Hrun.
  destruct (live w !! this) as [p|]; [|discriminate].
  specialize (Hm p). destruct (m p) as [[a' p'] cs]. injection Hrun as _ <-.
  cbn in *. rewrite destroy_count_app. lia.
Qed.

Lemma same_calls_clean {A} (m : M A) :
  (forall w a w', m w = Some (a, w') -> calls w' = calls w) -> keeps_clean m.
Proof. intros Hm w a w' Hrun H0. rewrite (Hm _ _ _ Hrun). exact H0. Qed.

Lemma destroy_if_necessary_clean name : method_clean (ngf_handle.destroy_if_necessary name).
Proof.
  intros p. rewrite destroy_if_necessary_calls. cbn [snd].
  destruct (decide (p <> nullptr)); [|reflexivity].
  rewrite destroy_count_destroy. destruct (decide (p = nullptr)); [contradiction|reflexivity].
Qed.

Lemma step_clean name o : keeps_clean (step name o).
Proof.
  assert (Hd := destroy_if_necessary_clean name).
  assert (Hget : method_clean ngf_handle.get) by (intros p; reflexivity).
  assert (Hassign : forall v, method_clean (ngf_handle.assign v)) by (intros v p; reflexivity).
  assert (Halloc : forall h p, keeps_clean (alloc h p)).
  { intros h p. apply same_calls_clean. intros w a w'. unfold alloc.
    destruct (live w !! h); [discriminate|]. intros [= _ <-]. reflexivity. }
  assert (Hgive : forall p, keeps_clean (give_raw p)).
  { intros p. apply same_calls_clean. intros w a w' [= _ <-]. reflexivity. }
  assert (Htake : forall p, keeps_clean (take_raw p)).
  { intros p. apply same_calls_clean. intros w a w' [= _ <-]. reflexivity. }
  assert (Hbackend : forall st, keeps_clean (backend_create st)).
  { intros st. apply same_calls_clean. intros w a w'. unfold backend_create.
    destruct st; intros [= _ <-]; reflexivity. }
  assert (Hmove : forall this other, keeps_clean (move_assign name this other)).
  { intros this other. unfold move_assign.
    repeat (apply bind_clean; [|intros ?]); apply invoke_clean; auto. }
  destruct o; cbn [step].
  - apply Halloc.
  - apply bind_clean; [apply Halloc | intros _; apply Hgive].
  - unfold move_construct. apply bind_clean; [apply invoke_clean, Hget | intros _].
    apply bind_clean; [apply Halloc | intros _; apply Hmove].
  - apply bind_clean; [apply invoke_clean, Hd | intros _].
    apply same_calls_clean. intros w a w'. unfold dealloc.
    destruct (live w !! this); [|discriminate]. intros [= _ <-]. reflexivity.
  - apply Hmove.
  - apply bind_clean; [apply Hbackend | intros reply].
    apply bind_clean; [apply invoke_clean | intros _].
    + intros p. unfold ngf_handle.initialize. rewrite destroy_if_necessary_calls.
      cbn [snd]. rewrite destroy_count_app. specialize (Hd p).
      rewrite destroy_if_necessary_calls in Hd. cbn [snd] in Hd. rewrite Hd. reflexivity.
    + apply same_calls_clean. intros w a w' [= _ <-]. reflexivity.
  - apply bind_clean; [apply invoke_clean | intros p; apply Htake].
    intros p. reflexivity.
  - apply bind_clean; [apply invoke_clean | intros _; apply Hgive].
    intros p. unfold ngf_handle.reset. specialize (Hd p).
    destruct (ngf_handle.destroy_if_necessary name p) as [[u q] cs]. exact Hd.
  - apply bind_clean; [apply Hbackend | intros reply].
    apply bind_clean; [|intros _; apply Htake].
    intros w a w' [= _ <-] H0. cbn. rewrite destroy_count_app. rewrite H0. reflexivity.
Qed.

Lemma run_clean name ops : forall w w',
  run name ops w = Some w' ->
  destroy_count nullptr (calls w) = O -> destroy_count nullptr (calls w') = O.
Proof.
  induction ops as [|o ops IH]; intros w w' Hrun H0; cbn [run] in Hrun.
  - injection Hrun as <-. exact H0.
  - destruct (step name o w) as [[u w1]|] eqn:Hs; [|discriminate].
    eapply IH; [exact Hrun|]. eapply step_clean; eauto.
Qed.

Lemma run_inv name ops : forall w w',
  inv w -> follows_contract name ops w = true -> run name ops w = Some w' -> inv w'.
Proof.
  induction ops as [|o ops IH]; intros w w' Hinv Hc Hrun; cbn [run follows_contract] in *.
  - injection Hrun as <-. exact Hinv.
  - apply andb_true_iff in Hc as [Hc1 Hc2].
    destruct (step name o w) as [[[] w1]|] eqn:Hs; [|discriminate].
    eapply IH; [|exact Hc2|exact Hrun]. eapply step_inv; eauto.
Qed.

(** C6, as the specification states it, fails: [reset] accepts any raw
    pointer, also the one the handle itself holds.  After [initialize] has
    created object 1, [reset(get())] destroys it and stores it again, and the
    destructor destroys it a second time. *)
Lemma C6_double_destroy_after_reset_of_own_pointer :
  fst (fst (ngf_handle.get 1)) = 1 /\
  run image [DefaultCtor 0; Initialize 0 NGF_ERROR_OK; Reset 0 1; Dtor 0] start =
    Some {| live := ∅;
            calls := [ngf_create image; ngf_destroy image 1; ngf_destroy image 1];
            next_object := 2;
            raw_owned := ∅ |} /\
  destroy_count 1 [ngf_create image; ngf_destroy image 1; ngf_destroy image 1] = 2%nat.
Proof. split; [reflexivity|]. split; [vm_compute; reflexivity | reflexivity]. Qed.

(** C6, amended.  For every program of constructor, [initialize], [reset],
    [release], move and destructor operations in which the raw-pointer
    constructor and [reset] are only handed null or a raw object the client
    holds outside every handle (released, or created directly, and not handed
    to a handle since): an empty handle makes no destroy call, no destroy call
    is ever made on the null object, no object is destroyed twice, and a
    created object has been destroyed exactly once precisely when no handle in
    scope holds it and the client does not hold it.  So once every handle has
    been destructed, destroy has been called exactly once for each created
    object that was not left released. *)
Theorem C6_destroy_exactly_once (name : wrapper_type) (ops : list op) (w : world) :
  follows_contract name ops start = true ->
  run name ops start = Some w ->
  ngf_handle.destroy_if_necessary name nullptr = (tt, nullptr, []) /\
  destroy_count nullptr (calls w) = O /\
  (forall p, (destroy_count p (calls w) <= 1)%nat) /\
  (forall p, created p w ->
     (destroy_count p (calls w) = 1%nat <-> ~ held p w /\ (p ∉ raw_owned w))) /\
  (live w = ∅ -> forall p, created p w -> (p ∉ raw_owned w) ->
     destroy_count p (calls w) = 1%nat).
Proof.
  intros Hc Hrun.
  pose proof (run_inv name ops start w inv_start Hc Hrun) as [Hn Hh Hu Hr Hd Hcov].
  assert (Hiff : forall p, created p w ->
     (destroy_count p (calls w) = 1%nat <-> ~ held p w /\ (p ∉ raw_owned w))).
  { intros p Hp. split.
    - intros H1. split.
      + intros [h Hl]. destruct (Hh h p Hl) as (_ & _ & H0); [|lia].
        unfold created, nullptr in *. lia.
      + intros Hin. destruct (Hr p Hin) as [_ H0]. lia.
    - intros [Hnh Hnr]. destruct (Hcov p Hp) as [?|[?|?]]; tauto. }
  split; [reflexivity|]. split; [|split; [|split]].
  - eapply run_clean; [exact Hrun | reflexivity].
  - intros p. apply Hd.
  - exact Hiff.
  - intros Hempty p Hp Hnr. apply Hiff; [exact Hp|]. split; [|exact Hnr].
    intros [h Hl]. rewrite Hempty, lookup_empty in Hl. discriminate.
Qed.

Lemma C6_destroy_exactly_once_witness :
  let w := default start (run image sample_program start) in
  ngf_handle.destroy_if_necessary image nullptr = (tt, nullptr, []) /\
  destroy_count nullptr (calls w) = O /\
  (forall p, (destroy_count p (calls w) <= 1)%nat) /\
  (forall p, created p w ->
     (destroy_count p (calls w) = 1%nat <-> ~ held p w /\ (p ∉ raw_owned w))) /\
  (live w = ∅ -> forall p, created p w -> (p ∉ raw_owned w) ->
     destroy_count p (calls w) = 1%nat).
Proof.
  refine (C6_destroy_exactly_once image sample_program _ _ _).
  - vm_compute. reflexivity.
  - vm_compute. reflexivity.
Defined.

(** C7. For two distinct handles [a] and [b] in scope, holding [pa] and
    [pb], move-assigning [a] into [b] makes one destroy call, on [pb], when
    [b] held an object, and none when it was empty; afterwards [b] holds [pa],
    [a] is empty and every other handle is as before.  Destroying the
    moved-from [a] then changes nothing: no call, the same state. *)
Theorem C7_move_assign (name : wrapper_type) (w : world) (a b : nat) (pa pb : Z) :
  a <> b ->
  live w !! a = Some pa ->
  live w !! b = Some pb ->
  exists w',
    move_assign name b a w = Some (tt, w') /\
    calls w' = calls w ++ (if decide (pb <> nullptr) then [ngf_destroy name pb] else []) /\
    live w' !! b = Some pa /\
    live w' !! a = Some nullptr /\
    (forall c, c <> a -> c <> b -> live w' !! c = live w !! c) /\
    invoke a (ngf_handle.dtor name) w' = Some (tt, w').
Proof.
  intros Hab Ha Hb. destruct w as [lv cs nx raw]. cbn [live calls] in *.
  eexists. split; [apply (move_assign_distinct name b a lv cs nx raw pb pa Hb Ha); congruence|].
  cbn [live calls]. split; [reflexivity|]. split; [|split; [|split]].
  - rewrite lookup_insert_ne by congruence. apply lookup_insert_eq.
  - apply lookup_insert_eq.
  - intros c Hca Hcb. rewrite !lookup_insert_ne by congruence. reflexivity.
  - unfold invoke. cbn [live calls next_object raw_owned]. rewrite lookup_insert_eq.
    unfold ngf_handle.dtor. rewrite (destroy_if_necessary_calls name nullptr).
    destruct (decide (nullptr <> nullptr)) as [|_]; [contradiction|].
    rewrite app_nil_r, insert_insert_eq. reflexivity.
Qed.

Lemma C7_move_assign_witness :
  exists w',
    move_assign image 1 0
      {| live := <[0%nat := 5]> (<[1%nat := 6]> ∅); calls := []; next_object := 7;
         raw_owned := ∅ |} = Some (tt, w') /\
    calls w' = [] ++ (if decide (6 <> nullptr) then [ngf_destroy image 6] else []) /\
    live w' !! 1%nat = Some 5 /\
    live w' !! 0%nat = Some nullptr /\
    (forall c, c <> 0%nat -> c <> 1%nat ->
       live w' !! c = (<[0%nat := 5]> (<[1%nat := 6]> ∅) : gmap nat Z) !! c) /\
    invoke 0 (ngf_handle.dtor image) w' = Some (tt, w').
Proof.
  refine (C7_move_assign image
            {| live := <[0%nat := 5]> (<[1%nat := 6]> ∅); calls := []; next_object := 7;
               raw_owned := ∅ |} 0 1 5 6 _ _ _).
  - discriminate.
  - reflexivity.
  - reflexivity.
Defined.

(** ** cmd_bind_resources *)

(** C9. With no bind op at all the instantiation of [cmd_bind_resources] is
    ill-formed, for the array of zero elements it declares: the call is not a
    legal one and nothing is submitted.  With one op or more the call is
    well-formed, makes the one backend call with the ops in order and their
    number, and returns. *)
Theorem C9_empty_pack_is_ill_formed (buf : Z) :
  cmd_bind_resources buf [] = IllFormed /\
  forall (op : ngf_resource_bind_op) (ops : list ngf_resource_bind_op),
    cmd_bind_resources buf (op :: ops) =
    Callable ([ngf_cmd_bind_resources buf (op :: ops) (Z.of_nat (S (length ops)))],
              Returns tt).
Proof. split; [reflexivity | intros op ops; reflexivity]. Qed.

(** * Further properties *)

(** ** streamed_uniform: the sequence of map requests *)
Section ring_requests.
Context `{nicegraf_h}.
Variable sizeof_T : Z.
Import streamed_uniform.

Lemma map_requests_app (cs1 cs2 : list backend_call) :
  map_requests (cs1 ++ cs2) = map_requests cs1 ++ map_requests cs2.
Proof.
  induction cs1 as [|c cs1 IH]; [reflexivity|].
  destruct c; cbn; rewrite ?IH; reflexivity.
Qed.

(** The [i]-th of the writes maps the slot [(frame_ + i) mod nframes_]. *)
Lemma writes_map_requests (inputs : list (Z * list Byte.byte)) : forall (s : t) (i : nat),
  ring_ok s ->
  Forall (fun x => fst x <> nullptr) inputs ->
  (i < length inputs)%nat ->
  map_requests (fst (writes sizeof_T inputs s)) !! i =
  Some (let offset := size_mul ((frame_ s + Z.of_nat i) mod nframes_ s) (aligned_size_ s) in
        (buf_ s, offset, aligned_size_ s, map_flags offset)).
Proof.
  induction inputs as [|[mapped_buf data] rest IH]; intros s i [Hn Hf] Hall Hi.
  - cbn in Hi. lia.
  - inversion Hall as [|? ? Hm Hrest]; subst. cbn [fst] in Hm.
    cbn [writes]. rewrite write_returns by (try assumption; lia). cbv zeta.
    set (s1 := {| buf_ := buf_ s; frame_ := _; current_offset_ := _;
                  nframes_ := nframes_ s; aligned_size_ := aligned_size_ s |}).
    destruct (next_frame (frame_ s) (nframes_ s) Hf ltac:(lia)) as [Hnext Hrange].
    assert (Hok : ring_ok s1) by (split; cbn; [lia | exact Hrange]).
    destruct (writes_ring sizeof_T rest s1 Hok Hrest) as (cs & s' & Hrun & _).
    specialize (IH s1). rewrite Hrun in IH |- *. cbn [fst] in IH |- *.
    destruct i as [|i].
    + cbn [app map_requests]. rewrite lookup_cons.
      rewrite Z.add_0_r, Z.mod_small by lia. reflexivity.
    + cbn [app map_requests]. rewrite lookup_cons.
      rewrite (IH i Hok Hrest) by (cbn in Hi; lia).
      cbn [buf_ frame_ nframes_ aligned_size_ s1]. rewrite Hnext.
      replace (((frame_ s + 1) mod nframes_ s + Z.of_nat i) mod nframes_ s)
        with ((frame_ s + Z.of_nat (S i)) mod nframes_ s); [reflexivity|].
      rewrite Zplus_mod_idemp_l. f_equal. lia.
Qed.

Lemma writes_map_requests_length (inputs : list (Z * list Byte.byte)) : forall s : t,
  ring_ok s ->
  Forall (fun x => fst x <> nullptr) inputs ->
  length (map_requests (fst (writes sizeof_T inputs s))) = length inputs.
Proof.
  induction inputs as [|[mapped_buf data] rest IH]; intros s [Hn Hf] Hall.
  - reflexivity.
  - inversion Hall as [|? ? Hm Hrest]; subst. cbn [fst] in Hm.
    cbn [writes]. rewrite write_returns by (try assumption; lia). cbv zeta.
    set (s1 := {| buf_ := buf_ s; frame_ := _; current_offset_ := _;
                  nframes_ := nframes_ s; aligned_size_ := aligned_size_ s |}).
    destruct (next_frame (frame_ s) (nframes_ s) Hf ltac:(lia)) as [Hnext Hrange].
    assert (Hok : ring_ok s1) by (split; cbn; [lia | exact Hrange]).
    destruct (writes_ring sizeof_T rest s1 Hok Hrest) as (cs & s' & Hrun & _).
    specialize (IH s1 Hok Hrest). rewrite Hrun in IH |- *. cbn [fst] in IH |- *.
    cbn. rewrite IH. reflexivity.
Qed.

Lemma writes_follow_protocol (inputs : list (Z * list Byte.byte)) : forall s : t,
  ring_ok s ->
  0 <= sizeof_T <= aligned_size_ s ->
  Forall (fun x => fst x <> nullptr) inputs ->
  follows_map_protocol (map fst inputs) None (fst (writes sizeof_T inputs s)) = true.
Proof.
  induction inputs as [|[mapped_buf data] rest IH]; intros s [Hn Hf] Hsz Hall.
  - reflexivity.
  - inversion Hall as [|? ? Hm Hrest]; subst. cbn [fst] in Hm.
    cbn [writes]. rewrite write_returns by (try assumption; lia). cbv zeta.
    set (s1 := {| buf_ := buf_ s; frame_ := _; current_offset_ := _;
                  nframes_ := nframes_ s; aligned_size_ := aligned_size_ s |}).
    destruct (next_frame (frame_ s) (nframes_ s) Hf ltac:(lia)) as [Hnext Hrange].
    assert (Hok : ring_ok s1) by (split; cbn; [lia | exact Hrange]).
    destruct (writes_ring sizeof_T rest s1 Hok Hrest) as (cs & s' & Hrun & _).
    specialize (IH s1 Hok Hsz Hrest). rewrite Hrun in IH |- *. cbn [fst] in IH |- *.
    cbn [app follows_map_protocol map fst].
    rewrite (bool_decide_eq_true_2 _ (conj (eq_refl mapped_buf) Hsz)).
    rewrite (bool_decide_eq_true_2 _ (eq_refl _)).
    rewrite bool_decide_eq_true_2 by reflexivity. exact IH.
Qed.
End ring_requests.

Lemma distinct_slots (i j N : Z) :
  0 <= i < j -> j - i < N -> i mod N <> j mod N.
Proof.
  intros Hij HN Heq.
  assert (Hd : (j - i) mod N = 0).
  { rewrite Zminus_mod, Heq, Z.sub_diag. apply Z.mod_0_l. lia. }
  rewrite Z.mod_small in Hd by lia. lia.
Qed.

(** X1. The slot the constructor computes holds the payload with between 1
    and 256 bytes to spare and is a multiple of 256. *)
Theorem X1_slot_size_bounds (hdr : nicegraf_h) (sizeof_T nframes : Z)
    (reply : create_reply) :
  0 <= sizeof_T -> sizeof_T + 256 <= SIZE_MAX ->
  let slot := streamed_uniform.aligned_size_
                (snd (streamed_uniform.construct sizeof_T nframes reply)) in
  sizeof_T < slot <= sizeof_T + 256 /\ slot mod 256 = 0.
Proof.
  intros H0 H1 slot. unfold slot. rewrite construct_state. cbn [snd streamed_uniform.aligned_size_].
  rewrite aligned_size_floor by assumption.
  pose proof (Z.div_mod sizeof_T 256 ltac:(lia)).
  pose proof (Z.mod_pos_bound sizeof_T 256 ltac:(lia)).
  split; [lia|]. apply Z.mod_mul. lia.
Qed.

Lemma X1_slot_size_bounds_witness :
  let slot := streamed_uniform.aligned_size_
                (snd (streamed_uniform.construct (H := sample_header) 300 3
                        {| status := NGF_ERROR_OK; written := Some 7 |})) in
  300 < slot <= 300 + 256 /\ slot mod 256 = 0.
Proof.
  refine (X1_slot_size_bounds sample_header 300 3
            {| status := NGF_ERROR_OK; written := Some 7 |} _ _).
  - lia.
  - unfold SIZE_MAX. lia.
Defined.

(** X2. On a freshly constructed ring of [N] slots, the [i]-th call of [write]
    (counting from 0) maps slot [i mod N] of the allocator's buffer, one slot
    size long, and asks for discard exactly when [i mod N = 0]: once per
    cycle of [N] calls. *)
Theorem X2_request_of_ith_write (hdr : nicegraf_h) (sizeof_T N : Z)
    (reply : create_reply) (inputs : list (Z * list Byte.byte)) (i : nat) :
  1 <= N <= UINT32_MAX ->
  0 <= sizeof_T -> sizeof_T + 256 <= SIZE_MAX ->
  streamed_uniform.aligned_size sizeof_T * N <= SIZE_MAX ->
  Forall (fun x => fst x <> nullptr) inputs ->
  (i < length inputs)%nat ->
  let s0 := snd (streamed_uniform.construct sizeof_T N reply) in
  map_requests (fst (streamed_uniform.writes sizeof_T inputs s0)) !! i =
  Some (streamed_uniform.buf_ s0,
        (Z.of_nat i mod N) * streamed_uniform.aligned_size sizeof_T,
        streamed_uniform.aligned_size sizeof_T,
        if decide (Z.of_nat i mod N = 0)
        then Z.lor NGF_BUFFER_MAP_WRITE_BIT NGF_BUFFER_MAP_DISCARD_BIT
        else NGF_BUFFER_MAP_WRITE_BIT).
Proof.
  intros HN H0 H1 Hfit Hall Hi s0.
  rewrite (writes_map_requests sizeof_T inputs s0 i); [|  | exact Hall | exact Hi].
  2:{ unfold streamed_uniform.ring_ok, s0. rewrite construct_state.
      cbn [snd streamed_uniform.nframes_ streamed_uniform.frame_]. lia. }
  unfold s0. rewrite construct_state.
  cbn [snd streamed_uniform.nframes_ streamed_uniform.frame_ streamed_uniform.buf_
       streamed_uniform.aligned_size_]. cbv zeta. rewrite Z.add_0_l.
  destruct (aligned_size_fits sizeof_T H0 H1) as [Hgt _].
  pose proof (Z.mod_pos_bound (Z.of_nat i) N ltac:(lia)) as Hm.
  assert (Hle : (Z.of_nat i mod N) * streamed_uniform.aligned_size sizeof_T <=
                N * streamed_uniform.aligned_size sizeof_T)
    by (apply Z.mul_le_mono_nonneg_r; lia).
  rewrite size_mul_small
    by (split; [apply Z.mul_nonneg_nonneg; lia | lia]).
  do 2 f_equal. unfold streamed_uniform.map_flags.
  destruct (decide (Z.of_nat i mod N = 0)) as [E|E].
  - rewrite E, Z.mul_0_l. reflexivity.
  - destruct (decide (Z.of_nat i mod N * streamed_uniform.aligned_size sizeof_T = 0)) as [E'|];
      [|reflexivity].
    apply Z.mul_eq_0 in E'. lia.
Qed.

Lemma X2_request_of_ith_write_witness :
  map_requests
    (fst (streamed_uniform.writes (H := sample_header) 68
            [(4096, sample_payload); (4096, sample_payload); (4096, sample_payload);
             (4096, sample_payload)]
            (snd (streamed_uniform.construct (H := sample_header) 68 3
                    {| status := NGF_ERROR_OK; written := Some 7 |})))) !! 3%nat =
  Some (7, (3 mod 3) * 256, 256, 6).
Proof.
  refine (X2_request_of_ith_write sample_header 68 3
            {| status := NGF_ERROR_OK; written := Some 7 |}
            [(4096, sample_payload); (4096, sample_payload); (4096, sample_payload);
             (4096, sample_payload)] 3 _ _ _ _ _ _).
  - unfold UINT32_MAX. lia.
  - lia.
  - unfold SIZE_MAX. lia.
  - vm_compute. discriminate.
  - repeat constructor; discriminate.
  - cbn. lia.
Defined.

(** X3. Two calls of [write] fewer than [N] calls apart map byte ranges that
    do not overlap. *)
Theorem X3_slots_in_flight_disjoint (hdr : nicegraf_h) (sizeof_T N : Z)
    (reply : create_reply) (inputs : list (Z * list Byte.byte)) (i j : nat) :
  1 <= N <= UINT32_MAX ->
  0 <= sizeof_T -> sizeof_T + 256 <= SIZE_MAX ->
  streamed_uniform.aligned_size sizeof_T * N <= SIZE_MAX ->
  Forall (fun x => fst x <> nullptr) inputs ->
  (i < j < length inputs)%nat ->
  Z.of_nat j - Z.of_nat i < N ->
  exists buf oi oj size fi fj,
    map_requests (fst (streamed_uniform.writes sizeof_T inputs
                         (snd (streamed_uniform.construct sizeof_T N reply)))) !! i =
      Some (buf, oi, size, fi) /\
    map_requests (fst (streamed_uniform.writes sizeof_T inputs
                         (snd (streamed_uniform.construct sizeof_T N reply)))) !! j =
      Some (buf, oj, size, fj) /\
    (oi + size <= oj \/ oj + size <= oi).
Proof.
  intros HN H0 H1 Hfit Hall Hij Hclose.
  set (s0 := snd (streamed_uniform.construct sizeof_T N reply)).
  assert (Hok : streamed_uniform.ring_ok s0).
  { unfold streamed_uniform.ring_ok, s0. rewrite construct_state.
    cbn [snd streamed_uniform.nframes_ streamed_uniform.frame_]. lia. }
  pose proof (writes_map_requests sizeof_T inputs s0 i Hok Hall ltac:(lia)) as Hi.
  pose proof (writes_map_requests sizeof_T inputs s0 j Hok Hall ltac:(lia)) as Hj.
  cbv zeta in Hi, Hj. eexists _, _, _, _, _, _. split; [exact Hi|]. split; [exact Hj|].
  unfold s0. rewrite construct_state.
  cbn [snd streamed_uniform.nframes_ streamed_uniform.frame_ streamed_uniform.aligned_size_].
  rewrite !Z.add_0_l.
  destruct (aligned_size_fits sizeof_T H0 H1) as [Hgt _].
  pose proof (Z.mod_pos_bound (Z.of_nat i) N ltac:(lia)) as Hmi.
  pose proof (Z.mod_pos_bound (Z.of_nat j) N ltac:(lia)) as Hmj.
  pose proof (distinct_slots (Z.of_nat i) (Z.of_nat j) N ltac:(lia) Hclose) as Hne.
  set (A := streamed_uniform.aligned_size sizeof_T) in *.
  set (mi := Z.of_nat i mod N) in *. set (mj := Z.of_nat j mod N) in *.
  assert (HA : 0 < A) by lia.
  assert (Hbound : forall m, 0 <= m < N -> 0 <= m * A <= SIZE_MAX).
  { intros m Hm. split; [apply Z.mul_nonneg_nonneg; lia|].
    transitivity (N * A); [apply Z.mul_le_mono_nonneg_r; lia | lia]. }
  rewrite !size_mul_small by (apply Hbound; assumption).
  destruct (Z.lt_total mi mj) as [Hlt|[Heq|Hlt]]; [left | contradiction | right].
  - replace (mi * A + A) with ((mi + 1) * A) by lia. apply Z.mul_le_mono_nonneg_r; lia.
  - replace (mj * A + A) with ((mj + 1) * A) by lia. apply Z.mul_le_mono_nonneg_r; lia.
Qed.

Lemma X3_slots_in_flight_disjoint_witness :
  exists buf oi oj size fi fj,
    map_requests
      (fst (streamed_uniform.writes (H := sample_header) 68
              [(4096, sample_payload); (4096, sample_payload); (4096, sample_payload);
               (4096, sample_payload)]
              (snd (streamed_uniform.construct (H := sample_header) 68 3
                      {| status := NGF_ERROR_OK; written := Some 7 |})))) !! 1%nat =
      Some (buf, oi, size, fi) /\
    map_requests
      (fst (streamed_uniform.writes (H := sample_header) 68
              [(4096, sample_payload); (4096, sample_payload); (4096, sample_payload);
               (4096, sample_payload)]
              (snd (streamed_uniform.construct (H := sample_header) 68 3
                      {| status := NGF_ERROR_OK; written := Some 7 |})))) !! 3%nat =
      Some (buf, oj, size, fj) /\
    (oi + size <= oj \/ oj + size <= oi).
Proof.
  refine (X3_slots_in_flight_disjoint sample_header 68 3
            {| status := NGF_ERROR_OK; written := Some 7 |}
            [(4096, sample_payload); (4096, sample_payload); (4096, sample_payload);
             (4096, sample_payload)] 1 3 _ _ _ _ _ _ _).
  - unfold UINT32_MAX. lia.
  - lia.
  - unfold SIZE_MAX. lia.
  - vm_compute. discriminate.
  - repeat constructor; discriminate.
  - cbn. lia.
  - lia.
Defined.

(** X4. The calls of any number of [write]s on a constructed ring follow the
    mapping protocol: there is one map request per call, a range is mapped
    only while none is, the payload is copied to the pointer the backend
    returned for the mapped range and fits the range, the flush names exactly
    the range that was mapped, the unmap names its buffer, and nothing is left
    mapped at the end. *)
Theorem X4_writes_follow_map_protocol (hdr : nicegraf_h) (sizeof_T N : Z)
    (reply : create_reply) (inputs : list (Z * list Byte.byte)) :
  1 <= N <= UINT32_MAX ->
  0 <= sizeof_T -> sizeof_T + 256 <= SIZE_MAX ->
  Forall (fun x => fst x <> nullptr) inputs ->
  let cs := fst (streamed_uniform.writes sizeof_T inputs
                   (snd (streamed_uniform.construct sizeof_T N reply))) in
  follows_map_protocol (map fst inputs) None cs = true /\
  length (map_requests cs) = length inputs.
Proof.
  intros HN H0 H1 Hall cs.
  assert (Hok : streamed_uniform.ring_ok (snd (streamed_uniform.construct sizeof_T N reply))).
  { unfold streamed_uniform.ring_ok. rewrite construct_state.
    cbn [snd streamed_uniform.nframes_ streamed_uniform.frame_]. lia. }
  split.
  - apply writes_follow_protocol; [exact Hok | | exact Hall].
    rewrite construct_state. cbn [snd streamed_uniform.aligned_size_].
    destruct (aligned_size_fits sizeof_T H0 H1). lia.
  - apply writes_map_requests_length; assumption.
Qed.

Lemma X4_writes_follow_map_protocol_witness :
  let cs := fst (streamed_uniform.writes (H := sample_header) 68
                   [(4096, sample_payload); (4096, sample_payload);
                    (4096, sample_payload); (4096, sample_payload)]
                   (snd (streamed_uniform.construct (H := sample_header) 68 3
                           {| status := NGF_ERROR_OK; written := Some 7 |}))) in
  follows_map_protocol [4096; 4096; 4096; 4096] None cs = true /\
  length (map_requests cs) = 4%nat.
Proof.
  refine (X4_writes_follow_map_protocol sample_header 68 3
            {| status := NGF_ERROR_OK; written := Some 7 |}
            [(4096, sample_payload); (4096, sample_payload);
             (4096, sample_payload); (4096, sample_payload)] _ _ _ _).
  - unfold UINT32_MAX. lia.
  - lia.
  - unfold SIZE_MAX. lia.
  - repeat constructor; discriminate.
Defined.

(** ** ngf_handle: single operations and how they compose *)

Lemma invoke_live {A} (this : nat) (m : ngf_handle.method A) (w : world) (p : Z) :
  live w !! this = Some p ->
  invoke this m w =
  Some (fst (fst (m p)),
        {| live := <[this := snd (fst (m p))]> (live w);
           calls := calls w ++ snd (m p);
           next_object := next_object w;
           raw_owned := raw_owned w |}).
Proof.
  intros Hl. unfold invoke. rewrite Hl. destruct (m p) as [[a p'] cs]. reflexivity.
Qed.

(** X5. [initialize] destroys the object the handle holds, if any, before it
    calls the backend's create, and returns the create's status.  Afterwards
    the handle holds what create stored; when create stored nothing the handle
    is empty, also when it held an object before. *)
Theorem X5_initialize (name : wrapper_type) (reply : create_reply) (w : world)
    (h : nat) (p : Z) :
  live w !! h = Some p ->
  exists w',
    invoke h (ngf_handle.initialize name reply) w = Some (status reply, w') /\
    calls w' = calls w ++ (if decide (p <> nullptr) then [ngf_destroy name p] else [])
                       ++ [ngf_create name] /\
    live w' !! h = Some (default nullptr (written reply)) /\
    (forall c, c <> h -> live w' !! c = live w !! c).
Proof.
  intros Hl. rewrite (invoke_live h _ w p Hl).
  unfold ngf_handle.initialize. rewrite destroy_if_necessary_calls.
  cbn [fst snd]. eexists. split; [reflexivity|].
  cbn [live calls]. split; [reflexivity|]. split.
  - apply lookup_insert_eq.
  - intros c Hc. rewrite lookup_insert_ne by congruence. reflexivity.
Qed.

Lemma X5_initialize_witness :
  exists w',
    invoke 0 (ngf_handle.initialize image
                {| status := NGF_ERROR_CODE 1; written := None |})
      {| live := <[0%nat := 5]> ∅; calls := []; next_object := 6; raw_owned := ∅ |} =
      Some (NGF_ERROR_CODE 1, w') /\
    calls w' = [] ++ (if decide (5 <> nullptr) then [ngf_destroy image 5] else [])
                  ++ [ngf_create image] /\
    live w' !! 0%nat = Some nullptr /\
    (forall c, c <> 0%nat -> live w' !! c = (<[0%nat := 5]> ∅ : gmap nat Z) !! c).
Proof.
  refine (X5_initialize image {| status := NGF_ERROR_CODE 1; written := None |}
            {| live := <[0%nat := 5]> ∅; calls := []; next_object := 6; raw_owned := ∅ |}
            0 5 _).
  reflexivity.
Defined.

(** X6. [release] hands out the object the handle holds and empties the
    handle without a backend call; [reset] with the released pointer puts the
    handle back as it was, again without a backend call. *)
Theorem X6_release_reset_round_trip (name : wrapper_type) (w : world) (h : nat) (p : Z) :
  live w !! h = Some p ->
  exists w1 w2,
    invoke h ngf_handle.release w = Some (p, w1) /\
    live w1 !! h = Some nullptr /\
    calls w1 = calls w /\
    invoke h (ngf_handle.reset name p) w1 = Some (tt, w2) /\
    w2 = w.
Proof.
  intros Hl. destruct w as [lv cs nx raw]. cbn [live calls] in *.
  rewrite (invoke_live h _ _ p) by exact Hl. cbn [ngf_handle.release fst snd live calls next_object raw_owned].
  eexists _, _. split; [reflexivity|]. cbn [live calls].
  split; [apply lookup_insert_eq|]. split; [apply app_nil_r|].
  rewrite (invoke_live h _ _ nullptr) by (cbn [live]; apply lookup_insert_eq).
  unfold ngf_handle.reset. rewrite destroy_if_necessary_calls.
  destruct (decide (nullptr <> nullptr)) as [|_]; [contradiction|].
  cbn [fst snd live calls next_object raw_owned]. split; [reflexivity|].
  rewrite !app_nil_r, insert_insert_eq, insert_id by assumption. reflexivity.
Qed.

Lemma X6_release_reset_round_trip_witness :
  exists w1 w2,
    invoke 0 ngf_handle.release
      {| live := <[0%nat := 5]> ∅; calls := []; next_object := 6; raw_owned := ∅ |} =
      Some (5, w1) /\
    live w1 !! 0%nat = Some nullptr /\
    calls w1 = [] /\
    invoke 0 (ngf_handle.reset image 5) w1 = Some (tt, w2) /\
    w2 = {| live := <[0%nat := 5]> ∅; calls := []; next_object := 6; raw_owned := ∅ |}.
Proof.
  refine (X6_release_reset_round_trip image
            {| live := <[0%nat := 5]> ∅; calls := []; next_object := 6; raw_owned := ∅ |}
            0 5 _).
  reflexivity.
Defined.

(** X7. Move-assigning a handle to itself does not keep its object: the
    object, if there is one, is destroyed and the handle is left empty. *)
Theorem X7_self_move_assign (name : wrapper_type) (w : world) (h : nat) (p : Z) :
  live w !! h = Some p ->
  exists w',
    move_assign name h h w = Some (tt, w') /\
    calls w' = calls w ++ (if decide (p <> nullptr) then [ngf_destroy name p] else []) /\
    live w' = <[h := nullptr]> (live w).
Proof.
  intros Hl. destruct w as [lv cs nx raw]. cbn [live calls] in *.
  rewrite (move_assign_self name h lv cs nx raw p Hl). eexists. split; [reflexivity|].
  split; reflexivity.
Qed.

Lemma X7_self_move_assign_witness :
  exists w',
    move_assign image 0 0
      {| live := <[0%nat := 5]> ∅; calls := []; next_object := 6; raw_owned := ∅ |} =
      Some (tt, w') /\
    calls w' = [] ++ (if decide (5 <> nullptr) then [ngf_destroy image 5] else []) /\
    live w' = <[0%nat := nullptr]> (<[0%nat := 5]> ∅).
Proof.
  refine (X7_self_move_assign image
            {| live := <[0%nat := 5]> ∅; calls := []; next_object := 6; raw_owned := ∅ |}
            0 5 _).
  reflexivity.
Defined.

(** X8. Move construction makes no backend call: the new handle holds the
    object of the source, the source is left empty and every other handle is
    untouched. *)
Theorem X8_move_construct (name : wrapper_type) (w : world) (a b : nat) (pa : Z) :
  live w !! a = Some pa ->
  live w !! b = None ->
  exists w',
    move_construct name b a w = Some (tt, w') /\
    calls w' = calls w /\
    live w' !! b = Some pa /\
    live w' !! a = Some nullptr /\
    (forall c, c <> a -> c <> b -> live w' !! c = live w !! c).
Proof.
  intros Ha Hb. destruct w as [lv cs nx raw]. cbn [live calls] in *.
  assert (Hne : b <> a) by congruence.
  unfold move_construct. unfold_monad. rewrite Ha.
  unfold ngf_handle.get at 1. cbn [live calls next_object raw_owned].
  rewrite (insert_id _ a pa) by exact Ha. rewrite app_nil_r, Hb.
  rewrite (move_assign_distinct name b a _ _ _ _ nullptr pa);
    [| apply lookup_insert_eq | rewrite lookup_insert_ne by congruence; exact Ha | exact Hne].
  eexists. split; [reflexivity|]. cbn [live calls].
  destruct (decide (nullptr <> nullptr)) as [|_]; [contradiction|].
  split; [apply app_nil_r|]. split; [|split].
  - rewrite lookup_insert_ne by congruence. apply lookup_insert_eq.
  - apply lookup_insert_eq.
  - intros c Hca Hcb. rewrite !lookup_insert_ne by congruence. reflexivity.
Qed.

Lemma X8_move_construct_witness :
  exists w',
    move_construct image 1 0
      {| live := <[0%nat := 5]> ∅; calls := []; next_object := 6; raw_owned := ∅ |} =
      Some (tt, w') /\
    calls w' = [] /\
    live w' !! 1%nat = Some 5 /\
    live w' !! 0%nat = Some nullptr /\
    (forall c, c <> 0%nat -> c <> 1%nat ->
       live w' !! c = (<[0%nat := 5]> ∅ : gmap nat Z) !! c).
Proof.
  refine (X8_move_construct image
            {| live := <[0%nat := 5]> ∅; calls := []; next_object := 6; raw_owned := ∅ |}
            0 1 5 _ _).
  - reflexivity.
  - reflexivity.
Defined.

(** X9. Resetting a handle to the pointer it holds itself ([reset(get())])
    destroys the object and stores the destroyed object back: the handle is
    left holding it, and its destructor destroys it a second time. *)
Theorem X9_reset_to_own_pointer (name : wrapper_type) (w : world) (h : nat) (p : Z) :
  live w !! h = Some p ->
  p <> nullptr ->
  exists w1 w2 w3,
    invoke h ngf_handle.get w = Some (p, w1) /\
    invoke h (ngf_handle.reset name p) w1 = Some (tt, w2) /\
    calls w2 = calls w ++ [ngf_destroy name p] /\
    live w2 !! h = Some p /\
    invoke h (ngf_handle.dtor name) w2 = Some (tt, w3) /\
    calls w3 = calls w ++ [ngf_destroy name p; ngf_destroy name p].
Proof.
  intros Hl Hp. destruct w as [lv cs nx raw]. cbn [live calls] in *.
  rewrite (invoke_live h _ _ p) by exact Hl.
  cbn [ngf_handle.get fst snd live calls next_object raw_owned].
  eexists _, _, _. split; [reflexivity|].
  rewrite (invoke_live h _ _ p) by (cbn [live]; apply lookup_insert_eq).
  unfold ngf_handle.reset. rewrite destroy_if_necessary_calls.
  destruct (decide (p <> nullptr)) as [_|]; [|contradiction].
  cbn [fst snd live calls next_object raw_owned]. split; [reflexivity|].
  split; [rewrite app_nil_r; reflexivity|].
  split; [apply lookup_insert_eq|].
  rewrite (invoke_live h _ _ p) by (cbn [live]; apply lookup_insert_eq).
  unfold ngf_handle.dtor. rewrite destroy_if_necessary_calls.
  destruct (decide (p <> nullptr)) as [_|]; [|contradiction].
  cbn [fst snd live calls next_object raw_owned]. split; [reflexivity|].
  rewrite app_nil_r, <- app_assoc. reflexivity.
Qed.

Lemma X9_reset_to_own_pointer_witness :
  exists w1 w2 w3,
    invoke 0 ngf_handle.get
      {| live := <[0%nat := 5]> ∅; calls := []; next_object := 6; raw_owned := ∅ |} =
      Some (5, w1) /\
    invoke 0 (ngf_handle.reset image 5) w1 = Some (tt, w2) /\
    calls w2 = [] ++ [ngf_destroy image 5] /\
    live w2 !! 0%nat = Some 5 /\
    invoke 0 (ngf_handle.dtor image) w2 = Some (tt, w3) /\
    calls w3 = [] ++ [ngf_destroy image 5; ngf_destroy image 5].
Proof.
  refine (X9_reset_to_own_pointer image
            {| live := <[0%nat := 5]> ∅; calls := []; next_object := 6; raw_owned := ∅ |}
            0 5 _ _).
  - reflexivity.
  - discriminate.
Defined.

(** X10. An object that was released is not destroyed by the handle: after
    [release] the destructor makes no backend call. *)
Theorem X10_release_then_destructor (name : wrapper_type) (w : world) (h : nat) (p : Z) :
  live w !! h = Some p ->
  exists w1 w2,
    invoke h ngf_handle.release w = Some (p, w1) /\
    step name (Dtor h) w1 = Some (tt, w2) /\
    calls w2 = calls w /\
    live w2 = delete h (live w).
Proof.
  intros Hl. destruct w as [lv cs nx raw]. cbn [live calls] in *.
  rewrite (invoke_live h _ _ p) by exact Hl.
  cbn [ngf_handle.release fst snd live calls next_object raw_owned].
  eexists _, _. split; [reflexivity|].
  cbn [step]. unfold_monad. rewrite lookup_insert_eq.
  unfold ngf_handle.dtor. rewrite destroy_if_necessary_calls.
  destruct (decide (nullptr <> nullptr)) as [|_]; [contradiction|].
  cbn [live calls next_object raw_owned]. rewrite lookup_insert_eq.
  split; [reflexivity|]. cbn [live calls]. split; [rewrite !app_nil_r; reflexivity|].
  rewrite insert_insert_eq. apply delete_insert_eq.
Qed.

Lemma X10_release_then_destructor_witness :
  exists w1 w2,
    invoke 0 ngf_handle.release
      {| live := <[0%nat := 5]> ∅; calls := []; next_object := 6; raw_owned := ∅ |} =
      Some (5, w1) /\
    step image (Dtor 0) w1 = Some (tt, w2) /\
    calls w2 = [] /\
    live w2 = delete 0%nat (<[0%nat := 5]> ∅).
Proof.
  refine (X10_release_then_destructor image
            {| live := <[0%nat := 5]> ∅; calls := []; next_object := 6; raw_owned := ∅ |}
            0 5 _).
  reflexivity.
Defined.

(** X11. In every program that keeps to the caller's contract on raw
    pointers, no two handles in scope hold the same object, and a handle
    holds nothing but null or an object the backend created. *)
Theorem X11_unique_ownership (name : wrapper_type) (ops : list op) (w : world) :
  follows_contract name ops start = true ->
  run name ops start = Some w ->
  (forall h1 h2 p, live w !! h1 = Some p -> live w !! h2 = Some p ->
     p <> nullptr -> h1 = h2) /\
  (forall h p, live w !! h = Some p -> p <> nullptr -> created p w).
Proof.
  intros Hc Hrun.
  pose proof (run_inv name ops start w inv_start Hc Hrun) as [Hn Hh Hu Hr Hd Hcov].
  split; [exact Hu|]. intros h p Hl Hp. apply (Hh h p Hl Hp).
Qed.

Lemma X11_unique_ownership_witness :
  let w := default start
             (run image [DefaultCtor 0; Initialize 0 NGF_ERROR_OK; DefaultCtor 1;
                         Initialize 1 NGF_ERROR_OK; MoveCtor 2 1] start) in
  (forall h1 h2 p, live w !! h1 = Some p -> live w !! h2 = Some p ->
     p <> nullptr -> h1 = h2) /\
  (forall h p, live w !! h = Some p -> p <> nullptr -> created p w).
Proof.
  refine (X11_unique_ownership image
            [DefaultCtor 0; Initialize 0 NGF_ERROR_OK; DefaultCtor 1;
             Initialize 1 NGF_ERROR_OK; MoveCtor 2 1] _ _ _).
  - vm_compute. reflexivity.
  - vm_compute. reflexivity.
Defined.

Lemma destroy_count_zero (p : Z) (cs : list backend_call) :
  destroy_count p cs = O -> forall name, ngf_destroy name p ∉ cs.
Proof.
  induction cs as [|c cs IH]; intros H0 name Hin.
  - apply elem_of_nil in Hin. exact Hin.
  - cbn [destroy_count] in H0. apply elem_of_cons in Hin as [<-|Hin].
    + cbn [is_destroy] in H0. rewrite bool_decide_eq_true_2 in H0 by reflexivity.
      discriminate.
    + apply (IH ltac:(lia) name Hin).
Qed.

(** X12. Whatever the program does with its handles, also against the
    caller's contract on raw pointers, no destroy function is ever called
    with a null object. *)
Theorem X12_no_destroy_of_null (name : wrapper_type) (ops : list op) (w : world) :
  run name ops start = Some w ->
  Forall (fun c => forall n, c <> ngf_destroy n nullptr) (calls w).
Proof.
  intros Hrun. apply Forall_forall. intros c Hin n ->.
  revert Hin. apply destroy_count_zero.
  eapply run_clean; [exact Hrun | reflexivity].
Qed.

Lemma X12_no_destroy_of_null_witness :
  let w := default start
             (run image [DefaultCtor 0; Initialize 0 NGF_ERROR_OK; Reset 0 1;
                         Reset 0 nullptr; Reset 0 nullptr; Dtor 0] start) in
  Forall (fun c => forall n, c <> ngf_destroy n nullptr) (calls w).
Proof.
  refine (X12_no_destroy_of_null image
            [DefaultCtor 0; Initialize 0 NGF_ERROR_OK; Reset 0 1;
             Reset 0 nullptr; Reset 0 nullptr; Dtor 0] _ _).
  vm_compute. reflexivity.
Defined.

(** X13. After one or more calls of [write] on a ring, the bind op for the
    current offset names the buffer, offset and size of the last map request
    made: the range written and flushed last. *)
Theorem X13_bind_op_names_last_mapped_range (hdr : nicegraf_h) (sizeof_T N : Z)
    (reply : create_reply) (inputs : list (Z * list Byte.byte)) (set binding : Z) :
  1 <= N <= UINT32_MAX ->
  inputs <> [] ->
  Forall (fun x => fst x <> nullptr) inputs ->
  exists cs s' buf offset size flags,
    streamed_uniform.writes sizeof_T inputs
      (snd (streamed_uniform.construct sizeof_T N reply)) = (cs, Returns s') /\
    last (map_requests cs) = Some (buf, offset, size, flags) /\
    info (fst (streamed_uniform.bind_op_at_current_offset set binding s')) =
      uniform_buffer_info buf offset size.
Proof.
  intros HN Hne Hall.
  set (s0 := snd (streamed_uniform.construct sizeof_T N reply)).
  assert (Hok : streamed_uniform.ring_ok s0).
  { unfold streamed_uniform.ring_ok, s0. rewrite construct_state.
    cbn [snd streamed_uniform.nframes_ streamed_uniform.frame_]. lia. }
  destruct (writes_ring sizeof_T inputs s0 Hok Hall)
    as (cs & s' & Hrun & Hb & _ & Has & _ & Hoff & _).
  pose proof (writes_map_requests_length sizeof_T inputs s0 Hok Hall) as Hlen.
  assert (Hk : (0 < length inputs)%nat) by (destruct inputs; [contradiction | cbn; lia]).
  pose proof (writes_map_requests sizeof_T inputs s0 (pred (length inputs)) Hok Hall
                ltac:(lia)) as Hlast.
  rewrite Hrun in Hlast, Hlen. cbn [fst] in Hlast, Hlen. cbv zeta in Hlast.
  eexists cs, s', _, _, _, _. split; [exact Hrun|]. split.
  - rewrite last_lookup, Hlen. exact Hlast.
  - cbn [streamed_uniform.bind_op_at_current_offset fst info]. rewrite Hb, Has, Hoff.
    destruct inputs as [|x rest]; [contradiction|]. do 2 f_equal. f_equal.
    cbn [length]. lia.
Qed.

Lemma X13_bind_op_names_last_mapped_range_witness :
  exists cs s' buf offset size flags,
    streamed_uniform.writes (H := sample_header) 68
      [(4096, sample_payload); (4096, sample_payload)]
      (snd (streamed_uniform.construct (H := sample_header) 68 3
              {| status := NGF_ERROR_OK; written := Some 7 |})) = (cs, Returns s') /\
    last (map_requests cs) = Some (buf, offset, size, flags) /\
    info (fst (streamed_uniform.bind_op_at_current_offset 0 1 s')) =
      uniform_buffer_info buf offset size.
Proof.
  refine (X13_bind_op_names_last_mapped_range sample_header 68 3
            {| status := NGF_ERROR_OK; written := Some 7 |}
            [(4096, sample_payload); (4096, sample_payload)] 0 1 _ _ _).
  - unfold UINT32_MAX. lia.
  - discriminate.
  - repeat constructor; discriminate.
Defined.

(** The protocol check does reject calls out of order, a copy to another
    place than the mapped pointer, and a copy longer than the mapped range. *)
Example map_protocol_rejects :
  follows_map_protocol [4096; 4096] None
    [ngf_uniform_buffer_map_range 7 0 256 6; ngf_uniform_buffer_map_range 7 256 256 2] = false /\
  follows_map_protocol [] None [ngf_uniform_buffer_flush_range 7 0 256] = false /\
  follows_map_protocol [4096] None
    [ngf_uniform_buffer_map_range 7 0 256 6; ngf_uniform_buffer_flush_range 7 0 512;
     ngf_uniform_buffer_unmap 7] = false /\
  follows_map_protocol [4096] None [ngf_uniform_buffer_map_range 7 0 256 6] = false /\
  follows_map_protocol [4096] None
    [ngf_uniform_buffer_map_range 7 0 256 6; memcpy 8192 sample_payload 68;
     ngf_uniform_buffer_flush_range 7 0 256; ngf_uniform_buffer_unmap 7] = false /\
  follows_map_protocol [4096] None
    [ngf_uniform_buffer_map_range 7 0 256 6; memcpy 4096 sample_payload 300;
     ngf_uniform_buffer_flush_range 7 0 256; ngf_uniform_buffer_unmap 7] = false /\
  follows_map_protocol [4096] None
    [ngf_uniform_buffer_map_range 7 0 256 6; memcpy 4096 sample_payload 68;
     ngf_uniform_buffer_flush_range 7 0 256; ngf_uniform_buffer_unmap 7] = true.
Proof. repeat split; reflexivity. Qed.
